(** * scholar-alert-digest: the extraction and aggregation pipeline of main.go

    A shallow embedding of [main.go].  Go strings are byte strings
    ([string] of 8-bit [ascii]); Go's [int] is a 64-bit two's-complement
    integer, kept as a [Z] with its wrap-around written out; a run-time
    panic (index or slice bounds out of range) is a value of the
    [outcome] monad; [map[paper]int] is a [gmap paper Z] whose absent
    keys read as 0. *)

From Stdlib Require Import ZArith Ascii String List Lia Permutation.
From stdpp Require Import base decidable countable list gmap strings sorting.

Local Open Scope string_scope.
Local Open Scope list_scope.
Local Open Scope Z_scope.

(** ** Go's [int] *)

Module GoInt.

Definition int := Z.

(** Two's-complement wrap-around of a 64-bit signed integer. *)
Definition wrap (x : Z) : int := (x + 2 ^ 63) mod 2 ^ 64 - 2 ^ 63.

Definition add (x y : int) : int := wrap (x + y).

(** [x++] *)
Definition incr (x : int) : int := add x 1.

End GoInt.

Export GoInt.

(** ** Panics *)

Inductive panic : Type :=
| IndexOutOfRange (i : Z) (length : Z)
    (* "index out of range [i] with length n" *)
| SliceBoundsOutOfRange (bound : Z) (length : Z).
    (* "slice bounds out of range [:bound]" *)

Inductive outcome (A : Type) : Type :=
| Returned (a : A)
| Panicked (p : panic).

Arguments Returned {A} a.
Arguments Panicked {A} p.

#[global] Instance outcome_ret : MRet outcome := fun A a => Returned a.

#[global] Instance outcome_bind : MBind outcome := fun A B f o =>
  match o with
  | Returned a => f a
  | Panicked p => Panicked p
  end.

Definition panics {A} (o : outcome A) : Prop := exists p, o = Panicked p.

(** [xs[i]] on a slice: panics outside [0, len xs). *)
Definition index {A} (xs : list A) (i : int) : outcome A :=
  if (i <? 0) || (Z.of_nat (List.length xs) <=? i) then
    Panicked (IndexOutOfRange i (Z.of_nat (List.length xs)))
  else
    match xs !! Z.to_nat i with
    | Some x => Returned x
    | None => Panicked (IndexOutOfRange i (Z.of_nat (List.length xs)))
    end.

(** ** Package [strings] and string slicing *)

Module strings.

Definition len (s : string) : int := Z.of_nat (String.length s).

Fixpoint take (n : nat) (s : string) : string :=
  match n, s with
  | O, _ => ""
  | S _, "" => ""
  | S n', String c s' => String c (take n' s')
  end.

Fixpoint drop (n : nat) (s : string) : string :=
  match n, s with
  | O, _ => s
  | S _, "" => ""
  | S n', String _ s' => drop n' s'
  end.

(** [s[:hi]]: panics unless [0 <= hi <= len s]. *)
Definition slice_to (s : string) (hi : int) : outcome string :=
  if (hi <? 0) || (len s <? hi) then Panicked (SliceBoundsOutOfRange hi (len s))
  else Returned (take (Z.to_nat hi) s).

(** [s[lo:]]: panics unless [0 <= lo <= len s]. *)
Definition slice_from (s : string) (lo : int) : outcome string :=
  if (lo <? 0) || (len s <? lo) then Panicked (SliceBoundsOutOfRange lo (len s))
  else Returned (drop (Z.to_nat lo) s).

(** [strings.HasPrefix(s, prefix)] *)
Fixpoint HasPrefix (s prefix : string) {struct prefix} : bool :=
  match prefix, s with
  | "", _ => true
  | String _ _, "" => false
  | String p prefix', String c s' => Ascii.eqb c p && HasPrefix s' prefix'
  end.

(** [strings.TrimPrefix(s, prefix)]: [s] without the leading [prefix], or
    [s] itself when it does not start with [prefix]. *)
Definition TrimPrefix (s prefix : string) : string :=
  if HasPrefix s prefix then drop (String.length prefix) s else s.

(** [strings.Index(s, substr)]: the index of the first instance of
    [substr] in [s], or -1 when there is none. *)
Fixpoint Index (s substr : string) : int :=
  if HasPrefix s substr then 0
  else
    match s with
    | "" => -1
    | String _ s' =>
        let r := Index s' substr in
        if r <? 0 then -1 else r + 1
    end.

(** The scan of [strings.ReplaceAll]: [skip] bytes of a match just
    replaced are still to be passed over. *)
Fixpoint replace_scan (skip : nat) (s old new : string) : string :=
  match s with
  | "" => ""
  | String c s' =>
      match skip with
      | S k => replace_scan k s' old new
      | O =>
          if HasPrefix s old
          then new +:+ replace_scan (String.length old - 1) s' old new
          else String c (replace_scan O s' old new)
      end
  end.

(** [strings.ReplaceAll(s, old, new)] for a non-empty [old]: every
    non-overlapping instance of [old], leftmost first, is replaced by
    [new].  (With an empty [old] Go inserts [new] around every rune; the
    program never does that and the case is left as the identity.) *)
Definition ReplaceAll (s old new : string) : string :=
  match old with
  | "" => s
  | String _ _ => replace_scan O s old new
  end.

End strings.

(** ** The abstract's first line *)

Definition newline : string := String "010"%char "".

(** [separateFirstLine] of main.go. *)
Definition separateFirstLine (text : string) : outcome (list string) :=
  let text := strings.ReplaceAll text newline "" in
  let n := 80 in
  if strings.len text <? n then
    mret [text; ""]
  else
    first ← strings.slice_to text n;
    rest ← strings.slice_from text n;
    mret [first; rest].

(** The text with every newline byte removed, as the specification
    words it. *)
Fixpoint remove_newlines (s : string) : string :=
  match s with
  | "" => ""
  | String c s' =>
      if Ascii.eqb c "010"%char then remove_newlines s'
      else String c (remove_newlines s')
  end.

(** ** Package [net/url]: query-component escaping *)

Module url.

Definition byte (c : ascii) : Z := Z.of_N (N_of_ascii c).

Definition of_byte (z : Z) : ascii := ascii_of_N (Z.to_N z).

Definition between (lo c hi : ascii) : bool :=
  (byte lo <=? byte c) && (byte c <=? byte hi).

Definition ishex (c : ascii) : bool :=
  between "0" c "9" || between "a" c "f" || between "A" c "F".

Definition unhex (c : ascii) : Z :=
  if between "0" c "9" then byte c - byte "0"
  else if between "a" c "f" then byte c - byte "a" + 10
  else if between "A" c "F" then byte c - byte "A" + 10
  else 0.

(** First pass of [unescape]: every '%' must be followed by two hex
    digits; otherwise the [EscapeError] carries the offending bytes
    (at most three, starting at the '%'). *)
Fixpoint check_escapes (s : string) : option string :=
  match s with
  | "" => None
  | String c s' =>
      if Ascii.eqb c "%" then
        match s' with
        | String a (String b rest) =>
            if ishex a && ishex b then check_escapes rest
            else Some (strings.take 3 s)
        | _ => Some (strings.take 3 s)
        end
      else check_escapes s'
  end.

Fixpoint contains (c : ascii) (s : string) : bool :=
  match s with
  | "" => false
  | String d s' => Ascii.eqb d c || contains c s'
  end.

(** Second pass of [unescape] in query-component mode: "%XY" becomes the
    byte 0xXY and '+' becomes a space.  The first pass has made sure that
    two bytes follow every '%'. *)
Fixpoint decode (s : string) : string :=
  match s with
  | "" => ""
  | String c s' =>
      if Ascii.eqb c "%" then
        match s' with
        | String a (String b rest) =>
            String (of_byte (Z.lor (Z.shiftl (unhex a) 4) (unhex b))) (decode rest)
        | _ => ""
        end
      else if Ascii.eqb c "+" then String " " (decode s')
      else String c (decode s')
  end.

(** [url.QueryUnescape(s)]: the decoded string, or the [EscapeError]. *)
Definition QueryUnescape (s : string) : string + string :=
  match check_escapes s with
  | Some bad => inr bad
  | None =>
      if negb (contains "%" s) && negb (contains "+" s) then inl s
      else inl (decode s)
  end.

Definition alphanum (c : ascii) : bool :=
  between "a" c "z" || between "A" c "Z" || between "0" c "9".

(** [shouldEscape(c, encodeQueryComponent)]: everything but the
    unreserved characters of RFC 3986. *)
Definition shouldEscape (c : ascii) : bool :=
  if alphanum c then false
  else if Ascii.eqb c "-" || Ascii.eqb c "_" || Ascii.eqb c "." || Ascii.eqb c "~"
  then false
  else true.

Definition upperhex (d : Z) : ascii :=
  match String.get (Z.to_nat d) "0123456789ABCDEF" with
  | Some c => c
  | None => "0"%char
  end.

Fixpoint encode (s : string) : string :=
  match s with
  | "" => ""
  | String c s' =>
      if Ascii.eqb c " " then String "+" (encode s')
      else if shouldEscape c then
        String "%" (String (upperhex (Z.shiftr (byte c) 4))
                      (String (upperhex (Z.land (byte c) 15)) (encode s')))
      else String c (encode s')
  end.

Fixpoint needs_escape (s : string) : bool :=
  match s with
  | "" => false
  | String c s' => shouldEscape c || needs_escape s'
  end.

(** [url.QueryEscape(s)], the encoder that [QueryUnescape] inverts: the
    "urlencode" of the round-trip scenario. *)
Definition QueryEscape (s : string) : string :=
  if needs_escape s then encode s else s.

End url.

(** ** Data model *)

Record abstract : Type := mk_abstract {
  Full : string;
  FirstLine : string;
  RestLines : string
}.

Record paper : Type := mk_paper {
  Title : string;
  URL : string;
  Abstract : abstract
}.

#[global] Instance abstract_eq_dec : EqDecision abstract.
Proof. solve_decision. Defined.

#[global] Instance paper_eq_dec : EqDecision paper.
Proof. solve_decision. Defined.

#[global] Instance abstract_countable : Countable abstract :=
  inj_countable'
    (fun a => (Full a, FirstLine a, RestLines a))
    (fun t => mk_abstract t.1.1 t.1.2 t.2)
    (fun a => match a with mk_abstract _ _ _ => eq_refl end).

#[global] Instance paper_countable : Countable paper :=
  inj_countable'
    (fun p => (Title p, URL p, Abstract p))
    (fun t => mk_paper t.1.1 t.1.2 t.2)
    (fun p => match p with mk_paper _ _ _ => eq_refl end).

(** The errors [extractPapersFromMsg] builds with [fmt.Errorf], one
    constructor per format string, carrying the format's arguments. *)
Inductive error : Type :=
| MessageTextError (id cause : string)
    (* "failed to get message text for ID %s - %s" *)
| ParseError (subj : string)
    (* "failed to parse HTML body of %q" *)
| TitleQueryError (xp : string)
    (* "title: not valid XPath expression %q" *)
| URLQueryError (xp : string)
    (* "url: not valid XPath expression %q" *)
| StructureMismatchError (titles urls : int) (subj : string)
    (* "titles %d != %d urls in %q" *)
| AbstractQueryError (xp : string).
    (* "abstract: not valid XPath expression %q" *)

(** ** The libraries main.go calls *)

(** The packages outside this file that the extraction goes through:
    gmailutils, htmlquery, and [strings.TrimSpace] (Unicode-aware).  A
    Go result [(v, nil)] is [inl v], and [(_, err)] is [inr err]. *)
Class Externals : Type := {
  Message : Type;                       (* *gmail.Message *)
  Body : Type;                          (* []byte, handed to the parser as is *)
  Node : Type;                          (* *html.Node *)
  message_Id : Message -> string;
  gmailutils_Subject : Message -> string;
  gmailutils_MessageTextBody : Message -> Body + string;
  gmailutils_UnreadMessagesInLabel : string -> string -> list Message;
  htmlquery_Parse : Body -> Node + string;
  htmlquery_QueryAll : Node -> string -> list Node + string;
  htmlquery_InnerText : Node -> string;
  strings_TrimSpace : string -> string
}.

Definition labelName : string := "[-oss-]-_ml-in-se".
Definition scholarURL : string := "http://scholar.google.com/scholar_url?url=".
Definition user : string := "me".

Definition xpTitle : string := "//h3/a".
Definition xpURL : string := "//h3/a/@href".
Definition xpAbs : string := "//h3/following-sibling::div[2]".

(** The URL of an entry from the text of its href:
    [longURL := strings.TrimPrefix(href, scholarURL)] and
    [url.QueryUnescape(longURL[:strings.Index(longURL, "&")])]. *)
Definition normalize_url (href : string) : outcome (string + string) :=
  let longURL := strings.TrimPrefix href scholarURL in
  escaped ← strings.slice_to longURL (strings.Index longURL "&");
  mret (url.QueryUnescape escaped).

Section Extraction.

Context `{Externals}.

(** One turn of the loop of [extractPapersFromMsg] at index [i]:
    [Some] paper to append, or [None] when the URL does not decode (the
    entry is logged and skipped). *)
Definition extract_entry (urls abss : list Node) (i : int) (aTitle : Node)
  : outcome (option paper) :=
  let title := strings_TrimSpace (htmlquery_InnerText aTitle) in
  a ← index abss i;
  let abs := strings_TrimSpace (htmlquery_InnerText a) in
  u ← index urls i;
  decoded ← normalize_url (htmlquery_InnerText u);
  match decoded with
  | inr _ => mret None
  | inl url =>
      l0 ← separateFirstLine abs;
      first ← index l0 0;
      l1 ← separateFirstLine abs;
      rest ← index l1 1;
      mret (Some (mk_paper title url (mk_abstract abs first rest)))
  end.

(** [for i, aTitle := range titles { ... }] from index [i] on. *)
Fixpoint extract_loop (urls abss : list Node) (i : int) (titles : list Node)
    (papers : list paper) : outcome (list paper) :=
  match titles with
  | [] => mret papers
  | aTitle :: titles' =>
      r ← extract_entry urls abss i aTitle;
      extract_loop urls abss (i + 1) titles'
        (match r with
         | Some p => papers ++ [p]
         | None => papers
         end)
  end.

(** [extractPapersFromMsg] of main.go: the pair [(papers, err)] it
    returns, or the panic it raises. *)
Definition extractPapersFromMsg (m : Message)
  : outcome (list paper * option error) :=
  let subj := gmailutils_Subject m in
  match gmailutils_MessageTextBody m with
  | inr err => mret ([], Some (MessageTextError (message_Id m) err))
  | inl body =>
  match htmlquery_Parse body with
  | inr _ => mret ([], Some (ParseError subj))
  | inl doc =>
  match htmlquery_QueryAll doc xpTitle with
  | inr _ => mret ([], Some (TitleQueryError xpTitle))
  | inl titles =>
  match htmlquery_QueryAll doc xpURL with
  | inr _ => mret ([], Some (URLQueryError xpURL))
  | inl urls =>
  if negb (Z.of_nat (length titles) =? Z.of_nat (length urls)) then
    mret ([], Some (StructureMismatchError
                      (Z.of_nat (length titles)) (Z.of_nat (length urls)) subj))
  else
  match htmlquery_QueryAll doc xpAbs with
  | inr _ => mret ([], Some (AbstractQueryError xpAbs))
  | inl abss =>
      papers ← extract_loop urls abss 0 titles [];
      mret (papers, None)
  end end end end end.

(** The href text of a url node has an '&' after the prefix. *)
Definition has_ampersand (u : Node) : Prop :=
  0 <= strings.Index (strings.TrimPrefix (htmlquery_InnerText u) scholarURL) "&".

(** The URL of a url node does not decode. *)
Definition decode_fails (u : Node) : bool :=
  match normalize_url (htmlquery_InnerText u) with
  | Returned (inr _) => true
  | _ => false
  end.

(** The number of entries skipped for a URL that does not decode. *)
Definition skipped (urls : list Node) : nat :=
  length (List.filter decode_fails urls).

End Extraction.

(** ** Aggregation *)

(** [m[k]] on a [map[paper]int]: an absent key reads as the zero value. *)
Definition map_get (m : gmap paper int) (k : paper) : int :=
  default 0 (m !! k).

(** [uniqTitles[paper]++] *)
Definition bump (m : gmap paper int) (p : paper) : gmap paper int :=
  <[p := incr (map_get m p)]> m.

(** What one extraction result does to the three running values of
    [extractPapersFromMsgs]: the body of its loop after the call of
    [extractPapersFromMsg]. *)
Definition accumulate (acc : int * int * gmap paper int)
    (r : list paper * option error) : int * int * gmap paper int :=
  let '(errCount, titlesCount, uniqTitles) := acc in
  let '(papers, err) := r in
  match err with
  | Some _ => (incr errCount, titlesCount, uniqTitles)
  | None =>
      (errCount,
       add titlesCount (Z.of_nat (length papers)),
       foldl bump uniqTitles papers)
  end.

(** The loop of [extractPapersFromMsgs] run over extraction results that
    are already there. *)
Definition aggregate (results : list (list paper * option error))
  : int * int * gmap paper int :=
  foldl accumulate (0, 0, ∅) results.

(** The process environment, as [os.LookupEnv] reads it. *)
Abbreviation environ := (gmap string string) (only parsing).

Section Pipeline.

Context `{Externals}.

Fixpoint messages_loop (messages : list Message)
    (acc : int * int * gmap paper int) : outcome (int * int * gmap paper int) :=
  match messages with
  | [] => mret acc
  | m :: messages' =>
      r ← extractPapersFromMsg m;
      messages_loop messages' (accumulate acc r)
  end.

(** [extractPapersFromMsgs] of main.go. *)
Definition extractPapersFromMsgs (messages : list Message)
  : outcome (int * int * gmap paper int) :=
  messages_loop messages (0, 0, ∅).

(** ** Fetching *)

(** The package-level variables the fetch touches: [gmailLabel] is a
    [*string]; what is kept is the string it points to. *)
Record globals : Type := mk_globals { gmailLabel : string }.

(** [flag.Parse()] as far as [-l] goes: the flag's value when given,
    the default [labelName] otherwise. *)
Definition flag_Parse (l_flag : option string) : globals :=
  mk_globals (default labelName l_flag).

(** [fetchGmailMsgs] of main.go (timing and logging left out): the
    globals after the call and the messages returned. *)
Definition fetchGmailMsgs (env : environ) (g : globals) (user label : string)
  : globals * list Message :=
  let g' :=
    match env !! "SAD_LABEL" with
    | Some envLabel => mk_globals envLabel
    | None => g
    end in
  let msgs := gmailutils_UnreadMessagesInLabel user label in
  (g', msgs).

(** The fetch as [main] performs it:
    [fetchGmailMsgs(srv, user, *gmailLabel)] after [flag.Parse()]. *)
Definition main_fetch (env : environ) (l_flag : option string)
  : globals * list Message :=
  let g := flag_Parse l_flag in
  fetchGmailMsgs env g user (gmailLabel g).

End Pipeline.

(** ** Package [sort] *)

Module sort.

(** [sort.Interface]; [Less] and [Swap] of an implementation may index
    a slice, hence may panic. *)
Class Interface (T : Type) : Type := {
  Len : T -> int;
  Less : T -> int -> int -> outcome bool;
  Swap : T -> int -> int -> outcome T
}.

Section Sort.

Context {T : Type} `{Interface T}.

(** [for j := i; j > a && data.Less(j, j-1); j-- { data.Swap(j, j-1) }],
    with [j] counted down as a natural number. *)
Fixpoint sift (data : T) (a : int) (j : nat) : outcome T :=
  match j with
  | O => mret data
  | S j' =>
      if Z.of_nat j >? a then
        lt ← Less data (Z.of_nat j) (Z.of_nat j - 1);
        if lt : bool then
          data' ← Swap data (Z.of_nat j) (Z.of_nat j - 1);
          sift data' a j'
        else mret data
      else mret data
  end.

(** [for i := ...; i < b; i++ { ... }], at most [fuel] turns. *)
Fixpoint insertion_loop (fuel : nat) (data : T) (a i b : int) : outcome T :=
  match fuel with
  | O => mret data
  | S fuel' =>
      if i <? b then
        data' ← sift data a (Z.to_nat i);
        insertion_loop fuel' data' a (i + 1) b
      else mret data
  end.

(** [insertionSort(data, a, b)] of package sort. *)
Definition insertionSort (data : T) (a b : int) : outcome T :=
  insertion_loop (Z.to_nat (b - a)) data a (a + 1) b.

(** [sort.Sort(data)]: the routine the package runs on short slices; on
    longer ones it runs other comparison sorts with the same contract
    and the same freedom among ties. *)
Definition Sort (data : T) : outcome T :=
  let n := Len data in
  insertionSort data 0 n.

End Sort.

End sort.

(** ** Sorted keys *)

Record sortedMap : Type := mk_sortedMap {
  sm_m : gmap paper int;
  sm_s : list paper
}.

(** [xs[i] = v] on a slice. *)
Definition store {A} (xs : list A) (i : int) (v : A) : outcome (list A) :=
  if (i <? 0) || (Z.of_nat (length xs) <=? i) then
    Panicked (IndexOutOfRange i (Z.of_nat (length xs)))
  else mret (<[Z.to_nat i := v]> xs).

Definition sortedMap_Len (sm : sortedMap) : int :=
  Z.of_nat (size (sm_m sm)).

Definition sortedMap_Less (sm : sortedMap) (i j : int) : outcome bool :=
  x ← index (sm_s sm) i;
  y ← index (sm_s sm) j;
  mret (map_get (sm_m sm) x >? map_get (sm_m sm) y).

Definition sortedMap_Swap (sm : sortedMap) (i j : int) : outcome sortedMap :=
  x ← index (sm_s sm) i;
  y ← index (sm_s sm) j;
  s1 ← store (sm_s sm) i y;
  s2 ← store s1 j x;
  mret (mk_sortedMap (sm_m sm) s2).

#[global] Instance sortedMap_Interface : sort.Interface sortedMap := {
  sort.Len := sortedMap_Len;
  sort.Less := sortedMap_Less;
  sort.Swap := sortedMap_Swap
}.

Definition zero_paper : paper := mk_paper "" "" (mk_abstract "" "" "").

(** [i := 0; for key := range m { sm.s[i] = key; i++ }], the keys
    coming in the order [keys]. *)
Fixpoint fill_keys (s : list paper) (i : int) (keys : list paper)
  : outcome (list paper) :=
  match keys with
  | [] => mret s
  | key :: keys' =>
      s' ← store s i key;
      fill_keys s' (i + 1) keys'
  end.

(** [sortedKeys] of main.go.  Go ranges over a map in an order it does
    not specify: [order] is the order the run takes, some listing of the
    keys of [m]. *)
Definition sortedKeys (m : gmap paper int) (order : list paper)
  : outcome (list paper) :=
  let s0 := replicate (size m) zero_paper in
  s ← fill_keys s0 0 order;
  sm ← sort.Sort (mk_sortedMap m s);
  mret (sm_s sm).

(** The keys of a map, in the listing stdpp gives. *)
Definition map_keys (m : gmap paper int) : list paper := (map_to_list m).*1.

(** [x] may stand before [y]: its count is not smaller. *)
Definition before (m : gmap paper int) (x y : paper) : Prop :=
  map_get m y <= map_get m x.

(** Descending by count: each element's count is at least that of the
    element after it. *)
Definition descending (m : gmap paper int) (s : list paper) : Prop :=
  forall (i : nat) (x y : paper),
    s !! i = Some x -> s !! S i = Some y -> map_get m y <= map_get m x.

(** ** A stand-in for the libraries *)

(** A small mailbox and document model to run the pipeline on: a
    document carries the texts its three queries select, and the
    white space trimmed is the ASCII white space of Go's fast path. *)
Module Double.

Inductive node : Type :=
| Text (inner : string)
| Document (titles hrefs abstracts : list string).

Record message : Type := mk_message {
  id : string;
  subject : string;
  body : node + string
}.

Definition InnerText (n : node) : string :=
  match n with
  | Text inner => inner
  | Document _ _ _ => ""
  end.

Definition QueryAll (doc : node) (xp : string) : list node + string :=
  match doc with
  | Text _ => inl []
  | Document titles hrefs abstracts =>
      if String.eqb xp xpTitle then inl (Text <$> titles)
      else if String.eqb xp xpURL then inl (Text <$> hrefs)
      else if String.eqb xp xpAbs then inl (Text <$> abstracts)
      else inr "unknown expression"
  end.

Definition is_space (c : ascii) : bool :=
  Ascii.eqb c "009" || Ascii.eqb c "010" || Ascii.eqb c "011"
  || Ascii.eqb c "012" || Ascii.eqb c "013" || Ascii.eqb c " ".

Fixpoint trim_left (s : string) : string :=
  match s with
  | "" => ""
  | String c s' => if is_space c then trim_left s' else s
  end.

Fixpoint trim_right (s : string) : string :=
  match s with
  | "" => ""
  | String c s' =>
      match trim_right s' with
      | "" => if is_space c then "" else String c ""
      | r => String c r
      end
  end.

Definition TrimSpace (s : string) : string := trim_right (trim_left s).

Definition href_of (target : string) : string :=
  scholarURL +:+ url.QueryEscape target +:+ "&hl=en&sa=X".

(** Two mentions of one paper, title and URL alike, whose abstract
    snippets differ. *)
Definition msg_two_snippets : message :=
  mk_message "m1" "new articles"
    (inl (Document
            ["Paper A"; "Paper A"]
            [href_of "http://example.com/a"; href_of "http://example.com/a"]
            ["first snippet"; "second snippet"])).

(** The two papers that message yields. *)
Definition paper_first_snippet : paper :=
  mk_paper "Paper A" "http://example.com/a"
    (mk_abstract "first snippet" "first snippet" "").

Definition paper_second_snippet : paper :=
  mk_paper "Paper A" "http://example.com/a"
    (mk_abstract "second snippet" "second snippet" "").

(** A map of counts over those two papers. *)
Definition counts : gmap paper int :=
  <[paper_first_snippet := 1]> {[ paper_second_snippet := 2 ]}.

(** An anchor without an href: one title node and no url node. *)
Definition msg_mismatch : message :=
  mk_message "m2" "new citations"
    (inl (Document ["Paper A"; "Paper B"] [href_of "http://example.com/a"]
            ["abstract a"; "abstract b"])).

(** A heading whose link does not go through the redirect and has no
    query parameters. *)
Definition msg_no_ampersand : message :=
  mk_message "m3" "new results"
    (inl (Document ["Paper C"] ["http://example.com/c.pdf"] ["abstract c"])).

(** A heading that is not followed by two [div]s. *)
Definition msg_no_abstract : message :=
  mk_message "m4" "new results"
    (inl (Document ["Paper D"] [href_of "http://example.com/d"] [])).

(** Two entries, both with well-formed links, the second without its
    abstract [div]. *)
Definition msg_short_abstracts : message :=
  mk_message "m5" "new articles"
    (inl (Document
            ["Paper E"; "Paper F"]
            [href_of "http://example.com/e"; href_of "http://example.com/f"]
            ["abstract e"])).

Definition msg_plain : message :=
  mk_message "m6" "new articles"
    (inl (Document ["Paper B"] [href_of "http://example.com/b"] ["abstract b"])).

(** The mailbox: unread messages by label. *)
Definition UnreadMessagesInLabel (user label : string) : list message :=
  if String.eqb label labelName then [msg_plain]
  else if String.eqb label "scholar" then [msg_two_snippets]
  else [].

#[global] Instance externals : Externals := {
  Message := message;
  Body := node;
  Node := node;
  message_Id := id;
  gmailutils_Subject := subject;
  gmailutils_MessageTextBody := body;
  gmailutils_UnreadMessagesInLabel := UnreadMessagesInLabel;
  htmlquery_Parse := fun b => inl b;
  htmlquery_QueryAll := QueryAll;
  htmlquery_InnerText := InnerText;
  strings_TrimSpace := TrimSpace
}.

End Double.


(** ** Reporting, marking and [main] *)

(** [gmail.BatchModifyMessagesRequest], the fields the API sends. *)
Record BatchModifyMessagesRequest : Type := mk_request {
  AddLabelIds : list string;
  Ids : list string;
  RemoveLabelIds : list string
}.

(** The anonymous struct [generateMdReport] hands to the template. *)
Record report : Type := mk_report {
  Date : string;
  UnreadEmails : int;
  TotalPapers : int;
  UniqPapers : int;
  Papers : gmap paper int
}.

(** The other services a run goes through: the Gmail client, the
    clock, the template engine and the Markdown renderer. *)
Class Services `{Externals} : Type := {
  (* the error of gmail.New(gmailutils.NewClient(markRead)), if any *)
  gmail_New : bool -> option string;
  (* the error of srv.Users.Messages.BatchModify(user, req).Do(), if any *)
  messages_BatchModify : string -> BatchModifyMessagesRequest -> option string;
  (* time.Now().Format(time.RFC3339) *)
  time_Now : string;
  (* tmpl.Execute(out, data): what it wrote to out, and its error if any *)
  template_Execute : string -> report -> string * option string;
  (* md.RenderToString *)
  markdown_RenderToString : string -> string
}.

Definition mdTemplText : string := "# Google Scholar Alert Digest

**Date**: {{.Date}}
**Unread emails**: {{.UnreadEmails}}
**Paper titles**: {{.TotalPapers}}
**Uniq paper titles**: {{.UniqPapers}}

{{ range $paper := sortedKeys .Papers }}
 - [{{ .Title }}]({{ .URL }}) ({{index $.Papers .}})
   {{- if .Abstract.Full }}
   <details>
    <summary>{{.Abstract.FirstLine}}</summary>{{.Abstract.RestLines}}
   </details>
   {{ end }}
{{ end }}
".

(** The lines the program logs, by format string. *)
Inductive log_line : Type :=
| ClientFailed (err : string)
    (* log.Fatalf "Unable to create a Gmail client: %v" *)
| TemplateFailed (tmplText err : string)
    (* log.Fatalf "template %q execution failed: %s" *)
| BatchModifyFailed (label : string) (n : int) (err : string)
    (* "failed to batch-delete label %s from %d messages: %s" *)
| ErrorsLogged (n : int).
    (* "Errors: %d\n" *)

(** What a run does to the world, in order. *)
Inductive event : Type :=
| PrintAllLabels (usr : string)
| Stdout (text : string)
| BatchModify (usr : string) (req : BatchModifyMessagesRequest)
| Log (line : log_line).

Definition quote : string := String "034"%char "".

(** [fmt.Printf(htmlTemplText, content)]: the document shell around
    the one [%s] of [htmlTemplText]. *)
Definition html_shell (content : string) : string :=
  "<!DOCTYPE html>
<html lang=" +:+ quote +:+ "en" +:+ quote +:+ ">
  <head><meta charset=" +:+ quote +:+ "UTF-8" +:+ quote +:+ "></head>
  <body>" +:+ content +:+ "</body>
</html>
".

Record flags : Type := mk_flags {
  flag_l : option string;   (* -l *)
  flag_labels : bool;       (* -labels *)
  flag_html : bool;         (* -html *)
  flag_mark : bool          (* -mark *)
}.

Section Run.

Context `{Services}.

(** [generateMdReport] of main.go: what the template wrote, and the
    error that makes [log.Fatalf] end the run. *)
Definition generateMdReport (tmplText : string) (messagesCount titlesCount : int)
    (papers : gmap paper int) : string * option string :=
  template_Execute tmplText
    (mk_report time_Now messagesCount titlesCount (Z.of_nat (size papers)) papers).

(** [generateAndPrintMarkdown]: the events, and whether the run ended
    in [log.Fatalf].  The template writes to standard output as it
    goes. *)
Definition generateAndPrintMarkdown (tmplText : string)
    (messagesCount titlesCount : int) (papers : gmap paper int)
  : list event * bool :=
  let '(text, err) := generateMdReport tmplText messagesCount titlesCount papers in
  match err with
  | Some e => ([Stdout text; Log (TemplateFailed tmplText e)], true)
  | None => ([Stdout text], false)
  end.

(** [generateAndPrintHTML]: the template writes to a buffer, always
    from [mdTemplText]; the document is printed once it is rendered. *)
Definition generateAndPrintHTML (tmplText : string)
    (messagesCount titlesCount : int) (papers : gmap paper int)
  : list event * bool :=
  let '(text, err) := generateMdReport mdTemplText messagesCount titlesCount papers in
  match err with
  | Some e => ([Log (TemplateFailed mdTemplText e)], true)
  | None => ([Stdout (html_shell (markdown_RenderToString text))], false)
  end.

(** [markGmailMsgsUnread] of main.go. *)
Definition markGmailMsgsUnread (usr : string) (messages : list Message)
  : list event :=
  let label := "UNREAD" in
  let msgIds := foldl (fun ids msg => ids ++ [message_Id msg]) [] messages in
  let req := mk_request [] msgIds [label] in
  match messages_BatchModify usr req with
  | Some err =>
      [BatchModify usr req;
       Log (BatchModifyFailed label (Z.of_nat (length messages)) err)]
  | None => [BatchModify usr req]
  end.

(** [main] of main.go: the events of the run and its exit status, or
    the panic that ends it. *)
Definition main (f : flags) (env : environ) : outcome (list event * int) :=
  match gmail_New (flag_mark f) with
  | Some err => mret ([Log (ClientFailed err)], 1)
  | None =>
      if flag_labels f then mret ([PrintAllLabels user], 0)
      else
        let messages := (main_fetch env (flag_l f)).2 in
        r ← extractPapersFromMsgs messages;
        let '(errCount, titlesCount, uniqTitles) := r in
        let '(printed, fatal) :=
          if flag_html f then
            generateAndPrintHTML mdTemplText (Z.of_nat (length messages))
              titlesCount uniqTitles
          else
            generateAndPrintMarkdown mdTemplText (Z.of_nat (length messages))
              titlesCount uniqTitles in
        if fatal then mret (printed, 1)
        else
          let marked :=
            if flag_mark f then markGmailMsgsUnread user messages else [] in
          let logged :=
            if negb (errCount =? 0) then [Log (ErrorsLogged errCount)] else [] in
          mret (printed ++ marked ++ logged, 0)
  end.

End Run.

(** A stand-in for those services: all of them work, the template
    writes a fixed text; and a mailbox whose first message does not
    extract. *)
Module DoubleRun.

Definition UnreadMessagesInLabel (usr label : string) : list Double.message :=
  [Double.msg_mismatch; Double.msg_plain].

Definition externals : Externals := {|
  Message := Double.message;
  Body := Double.node;
  Node := Double.node;
  message_Id := Double.id;
  gmailutils_Subject := Double.subject;
  gmailutils_MessageTextBody := Double.body;
  gmailutils_UnreadMessagesInLabel := UnreadMessagesInLabel;
  htmlquery_Parse := fun b => inl b;
  htmlquery_QueryAll := Double.QueryAll;
  htmlquery_InnerText := Double.InnerText;
  strings_TrimSpace := Double.TrimSpace
|}.

Definition services : @Services externals := {|
  gmail_New := fun _ => None;
  messages_BatchModify := fun _ _ => None;
  time_Now := "2019-11-01T10:00:00Z";
  template_Execute := fun _ _ => ("# Google Scholar Alert Digest", None);
  markdown_RenderToString := fun text => "<h1>" +:+ text +:+ "</h1>"
|}.

(** [-mark] and nothing else. *)
Definition mark_flags : flags := mk_flags None false false true.

End DoubleRun.

(** An index into the slice of a [sortedMap]. *)
Definition in_range (sm : sortedMap) (i : int) : Prop :=
  0 <= i < Z.of_nat (length (sm_s sm)).

(** ** What a run of the aggregation has seen *)

(** The papers of the results without error, in the order of the run. *)
Definition extracted (results : list (list paper * option error)) : list paper :=
  flat_map (fun r => match r.2 with Some _ => [] | None => r.1 end) results.

(** How often [p] was extracted. *)
Definition mentions (p : paper) (results : list (list paper * option error)) : nat :=
  length (List.filter (fun q => bool_decide (q = p)) (extracted results)).

(** How many results carry an error. *)
Definition failures (results : list (list paper * option error)) : nat :=
  length (List.filter (fun r => bool_decide (is_Some r.2)) results).

(** The sum of all counts of a map. *)
Definition total_counts (m : gmap paper int) : Z :=
  map_fold (fun _ v acc => v + acc) 0 m.

(** What [extractPapersFromMsg] establishes of an abstract: the two
    lines are the text without its newlines, cut after 80 bytes. *)
Definition abstract_split (a : abstract) : Prop :=
  FirstLine a +:+ RestLines a = remove_newlines (Full a)
  /\ strings.len (FirstLine a) = Z.min (strings.len (remove_newlines (Full a))) 80.

(** * Properties *)

(** ** The monad *)

Lemma bind_Returned {A B} (a : A) (f : A -> outcome B) :
  Returned a ≫= f = f a.
Proof. reflexivity. Qed.

Lemma bind_Panicked {A B} (p : panic) (f : A -> outcome B) :
  Panicked p ≫= f = Panicked p.
Proof. reflexivity. Qed.

(** ** Strings *)

Section StringFacts.

Lemma string_take_length (n : nat) (s : string) :
  String.length (strings.take n s) = Nat.min n (String.length s).
Proof.
  revert s; induction n as [|n IH]; intros [|c s]; simpl; auto.
Qed.

Lemma string_append_cons (c : ascii) (s t : string) :
  String c s +:+ t = String c (s +:+ t).
Proof. reflexivity. Qed.

Lemma string_take_drop (n : nat) (s : string) :
  strings.take n s +:+ strings.drop n s = s.
Proof.
  revert s; induction n as [|n IH]; intros [|c s]; simpl; auto.
  rewrite string_append_cons, IH. reflexivity.
Qed.

Lemma string_take_all (n : nat) (s : string) :
  (String.length s <= n)%nat -> strings.take n s = s.
Proof.
  revert s; induction n as [|n IH]; intros [|c s]; simpl; intros Hl;
    try reflexivity; try lia.
  rewrite IH by lia. reflexivity.
Qed.

Lemma string_drop_all (n : nat) (s : string) :
  (String.length s <= n)%nat -> strings.drop n s = "".
Proof.
  revert s; induction n as [|n IH]; intros [|c s]; simpl; intros Hl;
    try reflexivity; try lia.
  apply IH. lia.
Qed.

Lemma string_app_empty_r (s : string) : s +:+ "" = s.
Proof.
  induction s as [|c s IH]; [reflexivity|].
  rewrite string_append_cons, IH. reflexivity.
Qed.

Lemma replace_scan_newline (s : string) :
  strings.replace_scan O s newline "" = remove_newlines s.
Proof.
  induction s as [|c s IH]; simpl; [reflexivity|].
  destruct (Ascii.eqb c "010"); simpl.
  - exact IH.
  - now rewrite IH.
Qed.

Lemma ReplaceAll_newline (s : string) :
  strings.ReplaceAll s newline "" = remove_newlines s.
Proof. unfold strings.ReplaceAll, newline. apply replace_scan_newline. Qed.

Lemma slice_to_ok (s : string) (hi : int) :
  0 <= hi <= strings.len s ->
  strings.slice_to s hi = Returned (strings.take (Z.to_nat hi) s).
Proof.
  intros Hr. unfold strings.slice_to.
  destruct (Z.ltb_spec hi 0); [lia|].
  destruct (Z.ltb_spec (strings.len s) hi); [lia|]. reflexivity.
Qed.

Lemma slice_from_ok (s : string) (lo : int) :
  0 <= lo <= strings.len s ->
  strings.slice_from s lo = Returned (strings.drop (Z.to_nat lo) s).
Proof.
  intros Hr. unfold strings.slice_from.
  destruct (Z.ltb_spec lo 0); [lia|].
  destruct (Z.ltb_spec (strings.len s) lo); [lia|]. reflexivity.
Qed.

End StringFacts.

Lemma separateFirstLine_value (text : string) :
  separateFirstLine text
  = Returned [strings.take 80 (remove_newlines text);
              strings.drop 80 (remove_newlines text)].
Proof.
  unfold separateFirstLine. rewrite ReplaceAll_newline.
  set (cleaned := remove_newlines text).
  destruct (Z.ltb_spec (strings.len cleaned) 80) as [Hlt|Hge].
  - unfold strings.len in Hlt.
    rewrite string_take_all, string_drop_all by lia. reflexivity.
  - rewrite slice_to_ok, slice_from_ok by lia. reflexivity.
Qed.

(** C5.  [separateFirstLine] returns two strings, first line and rest:
    with the newlines of the text removed and L the length of what is
    left, the first has length min(L, 80), the two concatenated are the
    cleaned text, and when L < 80 the first is the cleaned text and the
    rest is empty. *)
Theorem separateFirstLine_split (text : string) :
  exists first rest : string,
    separateFirstLine text = Returned [first; rest]
    /\ strings.len first = Z.min (strings.len (remove_newlines text)) 80
    /\ first +:+ rest = remove_newlines text
    /\ (strings.len (remove_newlines text) < 80 ->
        first = remove_newlines text /\ rest = "").
Proof.
  exists (strings.take 80 (remove_newlines text)),
         (strings.drop 80 (remove_newlines text)).
  split; [apply separateFirstLine_value|]. unfold strings.len. repeat split.
  - rewrite string_take_length. lia.
  - apply string_take_drop.
  - apply string_take_all. lia.
  - apply string_drop_all. lia.
Qed.

Lemma separateFirstLine_split_witness :
  exists first rest : string,
    separateFirstLine "a short abstract" = Returned [first; rest]
    /\ strings.len first = Z.min (strings.len (remove_newlines "a short abstract")) 80
    /\ first +:+ rest = remove_newlines "a short abstract"
    /\ (strings.len (remove_newlines "a short abstract") < 80 ->
        first = remove_newlines "a short abstract" /\ rest = "").
Proof. exact (separateFirstLine_split "a short abstract"). Defined.

(** ** URL normalisation *)

Section UrlFacts.

Ltac each_byte c := destruct c as [[] [] [] [] [] [] [] []].

Lemma check_encode_cons (c : ascii) (s : string) :
  url.check_escapes (url.encode (String c s)) = url.check_escapes (url.encode s).
Proof. each_byte c; reflexivity. Qed.

Lemma decode_encode_cons (c : ascii) (s : string) :
  url.decode (url.encode (String c s)) = String c (url.decode (url.encode s)).
Proof. each_byte c; reflexivity. Qed.

Lemma amp_encode_cons (c : ascii) (s : string) :
  url.contains "&" (url.encode (String c s)) = url.contains "&" (url.encode s).
Proof. each_byte c; reflexivity. Qed.

Lemma check_encode (s : string) : url.check_escapes (url.encode s) = None.
Proof.
  induction s as [|c s IH]; [reflexivity|]. now rewrite check_encode_cons.
Qed.

Lemma decode_encode (s : string) : url.decode (url.encode s) = s.
Proof.
  induction s as [|c s IH]; [reflexivity|]. now rewrite decode_encode_cons, IH.
Qed.

Lemma amp_encode (s : string) : url.contains "&" (url.encode s) = false.
Proof.
  induction s as [|c s IH]; [reflexivity|]. now rewrite amp_encode_cons.
Qed.

(** A string of bytes that need no escaping holds no '%', '+' or '&'. *)
Lemma plain_contains (s : string) :
  url.needs_escape s = false ->
  url.contains "%" s = false /\ url.contains "+" s = false
  /\ url.contains "&" s = false.
Proof.
  induction s as [|c s IH]; [auto|].
  change (url.needs_escape (String c s))
    with (url.shouldEscape c || url.needs_escape s).
  intros Hn. apply orb_false_elim in Hn as [Hc Hs].
  destruct (IH Hs) as (H1 & H2 & H3).
  change (url.contains ?d (String c s))
    with (Ascii.eqb c d || url.contains d s).
  rewrite H1, H2, H3.
  revert Hc. each_byte c; vm_compute; auto; discriminate.
Qed.

Lemma check_no_percent (s : string) :
  url.contains "%" s = false -> url.check_escapes s = None.
Proof.
  induction s as [|c s IH]; [reflexivity|].
  change (url.contains "%" (String c s))
    with (Ascii.eqb c "%" || url.contains "%" s).
  intros Hn. apply orb_false_elim in Hn as [Hc Hs].
  simpl. rewrite Hc. auto.
Qed.

Lemma decode_plain (s : string) :
  url.contains "%" s = false -> url.contains "+" s = false -> url.decode s = s.
Proof.
  induction s as [|c s IH]; [reflexivity|].
  change (url.contains ?d (String c s))
    with (Ascii.eqb c d || url.contains d s).
  intros H1 H2.
  apply orb_false_elim in H1 as [Hc1 Hs1].
  apply orb_false_elim in H2 as [Hc2 Hs2].
  simpl. rewrite Hc1, Hc2, IH; auto.
Qed.

(** [QueryUnescape] undoes [QueryEscape], on every byte string. *)
Lemma QueryUnescape_QueryEscape (s : string) :
  url.QueryUnescape (url.QueryEscape s) = inl s.
Proof.
  unfold url.QueryEscape, url.QueryUnescape.
  destruct (url.needs_escape s) eqn:Hn.
  - rewrite check_encode.
    destruct (negb (url.contains "%" (url.encode s))
              && negb (url.contains "+" (url.encode s))) eqn:Hp.
    + apply andb_prop in Hp as [Hp1 Hp2].
      apply negb_true_iff in Hp1, Hp2.
      rewrite <- (decode_plain _ Hp1 Hp2). now rewrite decode_encode.
    + now rewrite decode_encode.
  - destruct (plain_contains s Hn) as (H1 & H2 & _).
    rewrite check_no_percent, H1, H2 by assumption. reflexivity.
Qed.

Lemma QueryEscape_no_amp (s : string) :
  url.contains "&" (url.QueryEscape s) = false.
Proof.
  unfold url.QueryEscape. destruct (url.needs_escape s) eqn:Hn.
  - apply amp_encode.
  - now destruct (plain_contains s Hn) as (_ & _ & H3).
Qed.

Lemma Index_first_amp (e rest : string) :
  url.contains "&" e = false ->
  strings.Index (e +:+ String "&" rest) "&" = strings.len e.
Proof.
  induction e as [|c e IH]; [reflexivity|].
  change (url.contains "&" (String c e))
    with (Ascii.eqb c "&" || url.contains "&" e).
  intros Hn. apply orb_false_elim in Hn as [Hc He].
  rewrite string_append_cons. simpl strings.Index. rewrite Hc. simpl.
  rewrite (IH He). unfold strings.len.
  destruct (Z.ltb_spec (Z.of_nat (String.length e)) 0); [lia|].
  simpl String.length. lia.
Qed.

Lemma string_take_app (e rest : string) :
  strings.take (String.length e) (e +:+ rest) = e.
Proof.
  induction e as [|c e IH]; [now destruct rest|].
  rewrite string_append_cons. simpl. now rewrite IH.
Qed.

Lemma string_length_append (e rest : string) :
  String.length (e +:+ rest) = (String.length e + String.length rest)%nat.
Proof.
  induction e as [|c e IH]; [reflexivity|].
  rewrite string_append_cons. simpl. now rewrite IH.
Qed.

Lemma TrimPrefix_scholarURL (s : string) :
  strings.TrimPrefix (scholarURL +:+ s) scholarURL = s.
Proof. reflexivity. Qed.

End UrlFacts.

(** C4.  Round trip of the URL normalisation: an href made of the
    scholar prefix, the query-escaped form of [u], an '&' and any
    trailing parameters normalises to exactly [u]. *)
Theorem normalize_url_round_trip (u params : string) :
  normalize_url (scholarURL +:+ url.QueryEscape u +:+ "&" +:+ params)
  = Returned (inl u).
Proof.
  unfold normalize_url. rewrite TrimPrefix_scholarURL.
  change ("&" +:+ params) with (String "&" params).
  rewrite Index_first_amp by apply QueryEscape_no_amp.
  rewrite slice_to_ok.
  - unfold strings.len. rewrite Nat2Z.id, string_take_app, bind_Returned.
    now rewrite QueryUnescape_QueryEscape.
  - unfold strings.len. rewrite string_length_append. lia.
Qed.

Example round_trip_example :
  normalize_url
    (scholarURL +:+ url.QueryEscape "http://example.com/x?y=1" +:+ "&other=stuff")
  = Returned (inl "http://example.com/x?y=1").
Proof. reflexivity. Qed.

(** ** Extraction from one message *)

Section ExtractionFacts.

Context `{Externals}.

(** C2.  When the title query and the url query of a message give
    different numbers of nodes, [extractPapersFromMsg] returns the
    mismatch error and no papers. *)
Theorem mismatch_returns_error (m : Message) (body : Body) (doc : Node)
    (titles urls : list Node) :
  gmailutils_MessageTextBody m = inl body ->
  htmlquery_Parse body = inl doc ->
  htmlquery_QueryAll doc xpTitle = inl titles ->
  htmlquery_QueryAll doc xpURL = inl urls ->
  length titles <> length urls ->
  extractPapersFromMsg m
  = Returned ([], Some (StructureMismatchError
                          (Z.of_nat (length titles)) (Z.of_nat (length urls))
                          (gmailutils_Subject m))).
Proof.
  intros Hbody Hdoc Ht Hu Hne. unfold extractPapersFromMsg.
  rewrite Hbody, Hdoc, Ht, Hu.
  destruct (Z.eqb_spec (Z.of_nat (length titles)) (Z.of_nat (length urls)))
    as [Heq|_]; [lia|]. reflexivity.
Qed.

End ExtractionFacts.

Lemma mismatch_returns_error_witness :
  extractPapersFromMsg Double.msg_mismatch
  = Returned ([], Some (StructureMismatchError 2 1 "new citations")).
Proof.
  apply (mismatch_returns_error (H := Double.externals) Double.msg_mismatch
           (Double.Document ["Paper A"; "Paper B"]
              [Double.href_of "http://example.com/a"]
              ["abstract a"; "abstract b"])
           (Double.Document ["Paper A"; "Paper B"]
              [Double.href_of "http://example.com/a"]
              ["abstract a"; "abstract b"])
           [Double.Text "Paper A"; Double.Text "Paper B"]
           [Double.Text (Double.href_of "http://example.com/a")]);
    [reflexivity | reflexivity | reflexivity | reflexivity | simpl; lia].
Defined.

(** C9.  A heading link whose text, the prefix stripped, holds no '&':
    [strings.Index] gives -1 and the slice [longURL[:-1]] panics; the
    message is neither extracted nor skipped. *)
Theorem no_ampersand_panics :
  strings.Index (strings.TrimPrefix "http://example.com/c.pdf" scholarURL) "&" = -1
  /\ extractPapersFromMsg Double.msg_no_ampersand
     = Panicked (SliceBoundsOutOfRange (-1) 24).
Proof. split; reflexivity. Qed.

(** C10.  A message with a title node and no abstract node: the counts
    of titles and urls agree, and [abss[0]] is out of range. *)
Theorem missing_abstract_panics :
  extractPapersFromMsg Double.msg_no_abstract = Panicked (IndexOutOfRange 0 0).
Proof. reflexivity. Qed.

(** C3.  A message with as many url nodes as title nodes, every link
    well formed, and one abstract node fewer: the extraction does not
    return at all. *)
Theorem equal_counts_may_panic :
  htmlquery_QueryAll
    (Double.Document
       ["Paper E"; "Paper F"]
       [Double.href_of "http://example.com/e"; Double.href_of "http://example.com/f"]
       ["abstract e"]) xpTitle
  = inl [Double.Text "Paper E"; Double.Text "Paper F"]
  /\ htmlquery_QueryAll
       (Double.Document
          ["Paper E"; "Paper F"]
          [Double.href_of "http://example.com/e"; Double.href_of "http://example.com/f"]
          ["abstract e"]) xpURL
     = inl [Double.Text (Double.href_of "http://example.com/e");
            Double.Text (Double.href_of "http://example.com/f")]
  /\ extractPapersFromMsg Double.msg_short_abstracts
     = Panicked (IndexOutOfRange 1 1).
Proof. repeat split; reflexivity. Qed.

(** ** The map of counts *)

Section MapFacts.

Implicit Types (m : gmap paper int) (p q : paper).

Lemma map_get_empty p : map_get ∅ p = 0.
Proof. unfold map_get. now rewrite lookup_empty. Qed.

Lemma map_get_bump_eq m p : map_get (bump m p) p = incr (map_get m p).
Proof. unfold bump, map_get at 1. now rewrite lookup_insert_eq. Qed.

Lemma map_get_bump_ne m p q : p <> q -> map_get (bump m p) q = map_get m q.
Proof. intros Hne. unfold bump, map_get. now rewrite lookup_insert_ne. Qed.

Lemma bump_lookup_ne m p q : p <> q -> bump m p !! q = m !! q.
Proof. intros Hne. unfold bump. now rewrite lookup_insert_ne. Qed.

Lemma bump_size_new m p : m !! p = None -> size (bump m p) = S (size m).
Proof. intros Hn. unfold bump. now apply map_size_insert_None. Qed.

End MapFacts.

Lemma extract_two_snippets :
  extractPapersFromMsg Double.msg_two_snippets
  = Returned ([Double.paper_first_snippet; Double.paper_second_snippet], None).
Proof. reflexivity. Qed.

(** C1.  Two mentions with the same title and the same URL and
    different abstracts: the map of counts keeps them apart, two keys
    with count 1 each, where the claim has one key with count 2. *)
Theorem abstract_is_part_of_key :
  Title Double.paper_first_snippet = Title Double.paper_second_snippet
  /\ URL Double.paper_first_snippet = URL Double.paper_second_snippet
  /\ exists uniqTitles : gmap paper int,
       extractPapersFromMsgs [Double.msg_two_snippets]
       = Returned (0, 2, uniqTitles)
       /\ size uniqTitles = 2%nat
       /\ map_get uniqTitles Double.paper_first_snippet = 1
       /\ map_get uniqTitles Double.paper_second_snippet = 1.
Proof.
  split; [reflexivity|]. split; [reflexivity|].
  assert (Hne : Double.paper_first_snippet <> Double.paper_second_snippet)
    by discriminate.
  exists (bump (bump ∅ Double.paper_first_snippet) Double.paper_second_snippet).
  split; [|split; [|split]].
  - unfold extractPapersFromMsgs, messages_loop.
    rewrite extract_two_snippets, bind_Returned. reflexivity.
  - rewrite bump_size_new.
    + rewrite bump_size_new by apply lookup_empty.
      now rewrite map_size_empty.
    + rewrite bump_lookup_ne by assumption. apply lookup_empty.
  - rewrite map_get_bump_ne by congruence.
    rewrite map_get_bump_eq, map_get_empty. reflexivity.
  - rewrite map_get_bump_eq, map_get_bump_ne by assumption.
    rewrite map_get_empty. reflexivity.
Qed.

(** ** Fetching *)

Lemma fetch_ignores_environment `{Externals} (env : environ) (g : globals)
    (usr label : string) :
  (fetchGmailMsgs env g usr label).2 = gmailutils_UnreadMessagesInLabel usr label.
Proof. reflexivity. Qed.

(** C8.  With SAD_LABEL set to "scholar" and no [-l] flag, the variable
    [gmailLabel] is set to "scholar", yet the messages fetched are those
    under the default label, which are not those under "scholar". *)
Theorem environment_label_not_polled :
  main_fetch {[ "SAD_LABEL" := "scholar" ]} None
  = (mk_globals "scholar", Double.UnreadMessagesInLabel user labelName)
  /\ Double.UnreadMessagesInLabel user labelName = [Double.msg_plain]
  /\ Double.UnreadMessagesInLabel user "scholar" = [Double.msg_two_snippets].
Proof.
  split; [|split; reflexivity].
  unfold main_fetch, fetchGmailMsgs. rewrite lookup_singleton_eq. reflexivity.
Qed.

(** ** Aggregation *)

Section AggregateFacts.

Lemma wrap_add_l (x y : Z) : wrap (wrap x + y) = wrap (x + y).
Proof.
  unfold wrap.
  replace ((x + 2 ^ 63) mod 2 ^ 64 - 2 ^ 63 + y + 2 ^ 63)
    with ((x + 2 ^ 63) mod 2 ^ 64 + y) by lia.
  rewrite Zplus_mod_idemp_l. f_equal. f_equal. lia.
Qed.

Lemma add_swap (x y z : int) : add (add x y) z = add (add x z) y.
Proof.
  unfold add. rewrite !wrap_add_l. f_equal. lia.
Qed.

Lemma bump_swap (m : gmap paper int) (p q : paper) :
  bump (bump m p) q = bump (bump m q) p.
Proof.
  destruct (decide (p = q)) as [->|Hne]; [reflexivity|].
  unfold bump at 1 3.
  rewrite (map_get_bump_ne m p q), (map_get_bump_ne m q p) by congruence.
  unfold bump. now apply insert_insert_ne.
Qed.

Lemma foldl_bump_swap (l : list paper) (m : gmap paper int) (p : paper) :
  foldl bump (bump m p) l = bump (foldl bump m l) p.
Proof.
  revert m; induction l as [|q l IH]; intros m; [reflexivity|].
  simpl. rewrite bump_swap. apply IH.
Qed.

Lemma foldl_bump_comm (l1 l2 : list paper) (m : gmap paper int) :
  foldl bump (foldl bump m l1) l2 = foldl bump (foldl bump m l2) l1.
Proof.
  revert m; induction l1 as [|p l1 IH]; intros m; [reflexivity|].
  simpl. rewrite IH, foldl_bump_swap. reflexivity.
Qed.

Lemma accumulate_swap (acc : int * int * gmap paper int)
    (r1 r2 : list paper * option error) :
  accumulate (accumulate acc r1) r2 = accumulate (accumulate acc r2) r1.
Proof.
  destruct acc as [[e t] u], r1 as [l1 [e1|]], r2 as [l2 [e2|]];
    unfold accumulate; try reflexivity.
  f_equal; [f_equal; apply add_swap | apply foldl_bump_comm].
Qed.



End AggregateFacts.

(** C6.  Aggregation does not depend on the order of the extraction
    results: a permutation of them gives the same error count, the same
    count of titles and the same map of counts. *)
Theorem aggregate_permutation (results results' : list (list paper * option error)) :
  results ≡ₚ results' -> aggregate results = aggregate results'.
Proof.
  intros Hp. unfold aggregate. generalize ((0, 0, ∅) : int * int * gmap paper int).
  induction Hp as [|r l l' _ IH|r1 r2 l|l l' l'' _ IH1 _ IH2]; intros acc; simpl.
  - reflexivity.
  - apply IH.
  - now rewrite accumulate_swap.
  - now rewrite IH1.
Qed.

Lemma aggregate_permutation_witness :
  aggregate [([Double.paper_first_snippet], None);
             ([], Some (ParseError "new results"));
             ([Double.paper_second_snippet; Double.paper_first_snippet], None)]
  = aggregate [([Double.paper_second_snippet; Double.paper_first_snippet], None);
               ([Double.paper_first_snippet], None);
               ([], Some (ParseError "new results"))].
Proof.
  apply aggregate_permutation.
  apply Permutation_sym, (Permutation_cons_append [_; _]).
Defined.

(** ** Slices *)

Section SliceFacts.

Context {A : Type}.

Implicit Types (xs pre post : list A) (x v : A).

Lemma index_middle pre x post (i : int) :
  i = Z.of_nat (length pre) -> index (pre ++ x :: post) i = Returned x.
Proof.
  intros ->. unfold index. rewrite length_app. simpl length.
  destruct (Z.ltb_spec (Z.of_nat (length pre)) 0); [lia|].
  destruct (Z.leb_spec (Z.of_nat (length pre + S (length post))) (Z.of_nat (length pre)));
    [lia|].
  simpl. rewrite Nat2Z.id, list_lookup_middle; reflexivity.
Qed.

Lemma store_middle pre x post v (i : int) :
  i = Z.of_nat (length pre) ->
  store (pre ++ x :: post) i v = Returned (pre ++ v :: post)%list.
Proof.
  intros ->. unfold store. rewrite length_app. simpl length.
  destruct (Z.ltb_spec (Z.of_nat (length pre)) 0); [lia|].
  destruct (Z.leb_spec (Z.of_nat (length pre + S (length post))) (Z.of_nat (length pre)));
    [lia|].
  simpl. rewrite Nat2Z.id.
  rewrite insert_app_r_alt, Nat.sub_diag by reflexivity. reflexivity.
Qed.

End SliceFacts.

(** ** Sorting the keys *)

Section SortFacts.

Variable m : gmap paper int.

Lemma sorted_snoc (l : list paper) (y : paper) :
  StronglySorted (before m) l -> Forall (fun x => before m x y) l ->
  StronglySorted (before m) (l ++ [y]).
Proof.
  intros Hs Hf. apply StronglySorted_app. split; [|split].
  - intros x1 x2 H1 H2. apply list_elem_of_singleton in H2 as ->.
    rewrite Forall_forall in Hf. now apply Hf.
  - exact Hs.
  - repeat constructor.
Qed.

Lemma sorted_snoc_inv (l : list paper) (y : paper) :
  StronglySorted (before m) (l ++ [y]) ->
  StronglySorted (before m) l /\ Forall (fun x => before m x y) l.
Proof.
  intros Hs. apply StronglySorted_app in Hs as (Hb & Hl & _). split; [exact Hl|].
  apply Forall_forall. intros x Hx. apply Hb; [exact Hx|]. apply list_elem_of_singleton.
  reflexivity.
Qed.

Lemma Less_adjacent (pre post : list paper) (x y : paper) (j : int) :
  j = Z.of_nat (S (length pre)) ->
  sortedMap_Less (mk_sortedMap m (pre ++ y :: x :: post)) j (j - 1)
  = Returned (map_get m x >? map_get m y).
Proof.
  intros ->. unfold sortedMap_Less. simpl sm_s. simpl sm_m.
  rewrite (index_middle pre y (x :: post) (Z.of_nat (S (length pre)) - 1)) by lia.
  rewrite (cons_middle y pre (x :: post)), app_assoc.
  rewrite (index_middle (pre ++ [y]) x post)
    by (rewrite length_app; cbn [length]; lia).
  reflexivity.
Qed.

Lemma Swap_adjacent (pre post : list paper) (x y : paper) (j : int) :
  j = Z.of_nat (S (length pre)) ->
  sortedMap_Swap (mk_sortedMap m (pre ++ y :: x :: post)) j (j - 1)
  = Returned (mk_sortedMap m (pre ++ x :: y :: post)).
Proof.
  intros ->. unfold sortedMap_Swap. simpl sm_s. simpl sm_m.
  rewrite (index_middle pre y (x :: post) (Z.of_nat (S (length pre)) - 1)) by lia.
  rewrite (cons_middle y pre (x :: post)), app_assoc.
  rewrite (index_middle (pre ++ [y]) x post)
    by (rewrite length_app; cbn [length]; lia).
  rewrite !bind_Returned.
  rewrite (store_middle (pre ++ [y]) x post y)
    by (rewrite length_app; cbn [length]; lia).
  rewrite bind_Returned, <- app_assoc, <- (cons_middle y pre (y :: post)).
  rewrite (store_middle pre y (y :: post) x) by lia.
  reflexivity.
Qed.

(** The inner loop puts the element at index [j] in its place among
    the sorted [j] elements before it. *)
Lemma sift_sorted (j : nat) :
  forall (pre post : list paper) (x : paper),
    length pre = j -> StronglySorted (before m) pre ->
    exists pre' : list paper,
      sort.sift (mk_sortedMap m (pre ++ x :: post)) 0 j
      = Returned (mk_sortedMap m (pre' ++ post))
      /\ pre' ≡ₚ pre ++ [x] /\ StronglySorted (before m) pre'.
Proof.
  induction j as [|j IH]; intros pre post x Hlen Hs.
  - destruct pre; [|discriminate]. exists [x]. repeat split; repeat constructor.
  - induction pre as [|y pre0 _] using rev_ind; [discriminate|].
    rewrite length_app in Hlen. simpl in Hlen.
    assert (Hlen0 : length pre0 = j) by lia.
    destruct (sorted_snoc_inv _ _ Hs) as [Hs0 Hall].
    rewrite <- app_assoc. simpl app.
    cbn [sort.sift].
    destruct (Z.gtb_spec (Z.of_nat (S j)) 0) as [_|]; [|lia].
    change (@sort.Less sortedMap _) with sortedMap_Less.
    change (@sort.Swap sortedMap _) with sortedMap_Swap.
    rewrite Less_adjacent by lia. rewrite bind_Returned.
    destruct (Z.gtb_spec (map_get m x) (map_get m y)) as [Hgt|Hle].
    + rewrite Swap_adjacent by lia. rewrite bind_Returned.
      destruct (IH pre0 (y :: post) x Hlen0 Hs0) as (pre1 & Hrun & Hperm & Hs1).
      exists (pre1 ++ [y]). rewrite <- app_assoc. split; [exact Hrun|]. split.
      * rewrite Hperm, <- !app_assoc. simpl. apply Permutation_app_head, perm_swap.
      * apply sorted_snoc; [exact Hs1|].
        rewrite Hperm. apply Forall_app. split; [exact Hall|].
        constructor; [unfold before; lia|constructor].
    + exists ((pre0 ++ [y]) ++ [x]). split; [|split].
      * now rewrite <- !app_assoc.
      * reflexivity.
      * apply sorted_snoc; [exact Hs|].
        apply Forall_app. split.
        -- eapply Forall_impl; [exact Hall|]. unfold before. intros z Hz. lia.
        -- constructor; [unfold before; lia|constructor].
Qed.

(** The outer loop, entered with the first [i] elements sorted and
    enough turns left for the others, sorts the slice. *)
Lemma insertion_loop_sorted (post : list paper) :
  forall (fuel : nat) (pre : list paper),
    (length post <= fuel)%nat -> StronglySorted (before m) pre ->
    exists s : list paper,
      sort.insertion_loop fuel (mk_sortedMap m (pre ++ post)) 0
        (Z.of_nat (length pre)) (Z.of_nat (length (pre ++ post)))
      = Returned (mk_sortedMap m s)
      /\ s ≡ₚ pre ++ post /\ StronglySorted (before m) s.
Proof.
  induction post as [|x post IH]; intros fuel pre Hfuel Hs.
  - exists pre. rewrite app_nil_r. split; [|split; [reflexivity|exact Hs]].
    destruct fuel; [reflexivity|]. cbn [sort.insertion_loop].
    destruct (Z.ltb_spec (Z.of_nat (length pre)) (Z.of_nat (length pre))); [lia|].
    reflexivity.
  - destruct fuel as [|fuel]; [simpl in Hfuel; lia|].
    cbn [sort.insertion_loop].
    destruct (Z.ltb_spec (Z.of_nat (length pre)) (Z.of_nat (length (pre ++ x :: post))))
      as [_|Hge]; [|rewrite length_app in Hge; simpl in Hge; lia].
    rewrite Nat2Z.id.
    destruct (sift_sorted (length pre) pre post x eq_refl Hs)
      as (pre' & Hrun & Hperm & Hs').
    rewrite Hrun, bind_Returned.
    assert (Hlen' : length pre' = S (length pre)).
    { rewrite Hperm, length_app. simpl. lia. }
    destruct (IH fuel pre' ltac:(simpl in Hfuel; lia) Hs') as (s & Hloop & Hp & Hss).
    exists s. split; [|split; [|exact Hss]].
    + rewrite <- Hloop. f_equal; [lia|].
      rewrite !length_app, Hlen'. simpl. lia.
    + rewrite Hp, Hperm, <- app_assoc. reflexivity.
Qed.

Lemma Sort_sorted (s : list paper) :
  length s = size m ->
  exists s' : list paper,
    sort.Sort (mk_sortedMap m s) = Returned (mk_sortedMap m s')
    /\ s' ≡ₚ s /\ StronglySorted (before m) s'.
Proof.
  intros Hlen. unfold sort.Sort, sort.insertionSort.
  change (@sort.Len sortedMap _ (mk_sortedMap m s)) with (Z.of_nat (size m)).
  rewrite <- Hlen.
  destruct s as [|x s].
  - exists []. repeat split; constructor.
  - destruct (insertion_loop_sorted s (length (x :: s)) [x]) as (s' & Hrun & Hp & Hs).
    + simpl. lia.
    + repeat constructor.
    + exists s'. split; [|split; assumption].
      rewrite <- Hrun. f_equal. lia.
Qed.

Lemma fill_keys_run (keys : list paper) :
  forall filled zeros : list paper,
    length zeros = length keys ->
    fill_keys (filled ++ zeros) (Z.of_nat (length filled)) keys
    = Returned (filled ++ keys)%list.
Proof.
  induction keys as [|k keys IH]; intros filled zeros Hlen.
  - destruct zeros; [reflexivity|discriminate].
  - destruct zeros as [|z zeros]; [discriminate|].
    cbn [fill_keys]. rewrite store_middle by reflexivity.
    rewrite bind_Returned.
    replace (filled ++ k :: zeros) with ((filled ++ [k]) ++ zeros)
      by now rewrite <- app_assoc.
    replace (Z.of_nat (length filled) + 1) with (Z.of_nat (length (filled ++ [k])))
      by (rewrite length_app; cbn [length]; lia).
    rewrite IH by (simpl in Hlen; lia).
    now rewrite <- app_assoc.
Qed.

Lemma sorted_descending (s : list paper) :
  StronglySorted (before m) s -> descending m s.
Proof.
  intros Hs i x y Hx Hy.
  apply lookup_lt_Some in Hy as Hlt.
  rewrite <- (take_drop i s) in Hs.
  apply StronglySorted_app_1_r in Hs.
  rewrite (drop_S s x i Hx) in Hs.
  apply StronglySorted_cons in Hs as [Hall _].
  rewrite Forall_forall in Hall. apply (Hall y).
  apply list_elem_of_lookup. exists 0%nat. rewrite lookup_drop.
  now replace (S i + 0)%nat with (S i) by lia.
Qed.

End SortFacts.

(** C7.  Whatever order the range over the map takes, [sortedKeys]
    returns the keys of the map with counts descending: each key's count
    is at least the count of the key after it. *)
Theorem sortedKeys_descending (m : gmap paper int) (order : list paper) :
  order ≡ₚ map_keys m ->
  exists keys : list paper,
    sortedKeys m order = Returned keys
    /\ keys ≡ₚ map_keys m
    /\ descending m keys.
Proof.
  intros Hperm.
  assert (Hlen : length order = size m).
  { rewrite Hperm. unfold map_keys. now rewrite length_fmap, length_map_to_list. }
  unfold sortedKeys.
  assert (Hfill : fill_keys (replicate (size m) zero_paper) 0 order = Returned order).
  { apply (fill_keys_run order [] (replicate (size m) zero_paper)).
    now rewrite length_replicate. }
  rewrite Hfill, bind_Returned.
  destruct (Sort_sorted m order Hlen) as (s' & Hrun & Hp & Hs).
  rewrite Hrun, bind_Returned. exists s'. split; [reflexivity|]. split.
  - now rewrite Hp.
  - now apply sorted_descending.
Qed.

Lemma sortedKeys_descending_witness :
  exists keys : list paper,
    sortedKeys Double.counts
      [Double.paper_first_snippet; Double.paper_second_snippet]
    = Returned keys
    /\ keys ≡ₚ map_keys Double.counts
    /\ descending Double.counts keys.
Proof.
  apply sortedKeys_descending.
  unfold map_keys, Double.counts.
  rewrite map_to_list_insert, map_to_list_singleton.
  - reflexivity.
  - apply lookup_singleton_ne. discriminate.
Defined.

(** ** Extraction where nothing panics *)

Section GuardedExtraction.

Context `{Externals}.

Lemma Index_bounds (s sep : string) :
  -1 <= strings.Index s sep <= strings.len s.
Proof.
  unfold strings.len. induction s as [|c s IH].
  - simpl. destruct (strings.HasPrefix "" sep); simpl; lia.
  - cbn [strings.Index]. destruct (strings.HasPrefix (String c s) sep).
    + simpl String.length. lia.
    + destruct (Z.ltb_spec (strings.Index s sep) 0); simpl String.length; lia.
Qed.

Lemma normalize_url_returns (u : Node) :
  has_ampersand u ->
  exists d : string + string, normalize_url (htmlquery_InnerText u) = Returned d.
Proof.
  unfold has_ampersand, normalize_url. intros Hamp.
  set (longURL := strings.TrimPrefix (htmlquery_InnerText u) scholarURL) in *.
  pose proof (Index_bounds longURL "&") as Hb.
  rewrite slice_to_ok by lia. eexists. reflexivity.
Qed.

Lemma index_in_range {A} (xs : list A) (i : nat) :
  (i < length xs)%nat -> exists x, index xs (Z.of_nat i) = Returned x.
Proof.
  intros Hlt. unfold index.
  destruct (Z.ltb_spec (Z.of_nat i) 0); [lia|].
  destruct (Z.leb_spec (Z.of_nat (length xs)) (Z.of_nat i)); [lia|].
  simpl. rewrite Nat2Z.id.
  destruct (lookup_lt_is_Some_2 xs i Hlt) as [x ->]. eauto.
Qed.

(** One entry, with its abstract node there and an '&' in its link,
    gives a paper, or nothing exactly when its URL does not decode. *)
Lemma extract_entry_guarded (before_u after_u abss : list Node) (u aTitle : Node) :
  (length before_u < length abss)%nat -> has_ampersand u ->
  exists r : option paper,
    extract_entry (before_u ++ u :: after_u) abss (Z.of_nat (length before_u)) aTitle
    = Returned r
    /\ (if decode_fails u then r = None else exists p, r = Some p).
Proof.
  intros Hlt Hamp. unfold extract_entry, decode_fails.
  destruct (index_in_range abss _ Hlt) as [a ->]. rewrite bind_Returned.
  rewrite index_middle by reflexivity. rewrite bind_Returned.
  destruct (normalize_url_returns u Hamp) as [d ->]. rewrite bind_Returned.
  destruct d as [decoded|bad].
  - rewrite separateFirstLine_value, !bind_Returned.
    eexists. split; [reflexivity|]. eauto.
  - eexists. split; reflexivity.
Qed.

Lemma extract_loop_guarded (abss titles : list Node) :
  forall (before_u urls : list Node) (papers : list paper),
    length titles = length urls ->
    (length (before_u ++ urls) <= length abss)%nat ->
    Forall has_ampersand urls ->
    exists papers' : list paper,
      extract_loop (before_u ++ urls) abss (Z.of_nat (length before_u)) titles papers
      = Returned papers'
      /\ (length papers' + skipped urls = length papers + length titles)%nat.
Proof.
  induction titles as [|t titles IH]; intros before_u urls papers Hlen Habs Hamp.
  - destruct urls; [|discriminate]. exists papers. split; [reflexivity|].
    unfold skipped. simpl. lia.
  - destruct urls as [|u urls]; [discriminate|].
    apply Forall_cons in Hamp as [Hu Hamp].
    rewrite length_app in Habs. cbn [length] in Habs.
    cbn [extract_loop].
    destruct (extract_entry_guarded before_u urls abss u t ltac:(lia) Hu)
      as (r & -> & Hr).
    rewrite bind_Returned.
    replace (Z.of_nat (length before_u) + 1)
      with (Z.of_nat (length (before_u ++ [u])))
      by (rewrite length_app; cbn [length]; lia).
    rewrite (cons_middle u before_u urls), app_assoc.
    destruct (IH (before_u ++ [u]) urls
                (match r with Some p => papers ++ [p] | None => papers end))
      as (papers' & Hrun & Hcount).
    + simpl in Hlen. lia.
    + rewrite !length_app. cbn [length]. lia.
    + exact Hamp.
    + exists papers'. split; [exact Hrun|].
      unfold skipped in *. cbn [List.filter length].
      destruct (decode_fails u).
      * subst r. cbn [length]. lia.
      * destruct Hr as [p ->]. rewrite length_app in Hcount.
        cbn [length] in Hcount. lia.
Qed.

(** With equal numbers of title and url nodes, an abstract node for
    every title and an '&' in every link, [extractPapersFromMsg] returns
    without error as many papers as there are titles, less the entries
    whose URL does not decode. *)
Lemma extract_guarded_length (m : Message) (body : Body) (doc : Node)
    (titles urls abss : list Node) :
  gmailutils_MessageTextBody m = inl body ->
  htmlquery_Parse body = inl doc ->
  htmlquery_QueryAll doc xpTitle = inl titles ->
  htmlquery_QueryAll doc xpURL = inl urls ->
  htmlquery_QueryAll doc xpAbs = inl abss ->
  length titles = length urls ->
  (length titles <= length abss)%nat ->
  Forall has_ampersand urls ->
  exists papers : list paper,
    extractPapersFromMsg m = Returned (papers, None)
    /\ (length papers + skipped urls = length titles)%nat.
Proof.
  intros Hbody Hdoc Ht Hu Ha Hlen Habs Hamp. unfold extractPapersFromMsg.
  rewrite Hbody, Hdoc, Ht, Hu, Ha, Hlen, Z.eqb_refl. cbn [negb].
  destruct (extract_loop_guarded abss titles [] urls [] Hlen) as (papers & Hrun & Hc).
  - simpl. lia.
  - exact Hamp.
  - simpl in Hrun. change (Z.of_nat 0) with 0 in Hrun. rewrite Hrun, bind_Returned.
    exists papers. split; [reflexivity|]. simpl in Hc. lia.
Qed.

(** Where a guard is missing, the entry panics. *)
Lemma extract_entry_no_abstract (urls abss : list Node) (i : nat) (aTitle : Node) :
  (length abss <= i)%nat ->
  extract_entry urls abss (Z.of_nat i) aTitle
  = Panicked (IndexOutOfRange (Z.of_nat i) (Z.of_nat (length abss))).
Proof.
  intros Hge. unfold extract_entry, index.
  destruct (Z.ltb_spec (Z.of_nat i) 0); [lia|].
  destruct (Z.leb_spec (Z.of_nat (length abss)) (Z.of_nat i)); [|lia].
  reflexivity.
Qed.

Lemma extract_entry_no_ampersand (before_u after_u abss : list Node)
    (u aTitle : Node) :
  (length before_u < length abss)%nat -> ~ has_ampersand u ->
  panics (extract_entry (before_u ++ u :: after_u) abss
            (Z.of_nat (length before_u)) aTitle).
Proof.
  intros Hlt Hno. unfold extract_entry, has_ampersand in *.
  destruct (index_in_range abss _ Hlt) as [a ->]. rewrite bind_Returned.
  rewrite index_middle by reflexivity. rewrite bind_Returned.
  unfold normalize_url, strings.slice_to.
  destruct (Z.ltb_spec
              (strings.Index (strings.TrimPrefix (htmlquery_InnerText u) scholarURL) "&")
              0) as [_|Hge]; [|lia].
  cbn [orb]. rewrite !bind_Panicked. eexists. reflexivity.
Qed.

End GuardedExtraction.

(** * Further properties *)

(** ** What the aggregation counts *)

Section CountFacts.

Implicit Types (m : gmap paper int) (p q : paper) (l : list paper).
Implicit Types (results : list (list paper * option error)).

Lemma wrap_small (x : Z) : - 2 ^ 63 <= x < 2 ^ 63 -> wrap x = x.
Proof.
  intros Hr. unfold wrap.
  change (2 ^ 64) with (2 ^ 63 + 2 ^ 63). rewrite Z.mod_small; lia.
Qed.

Lemma iter_incr (n : nat) : Nat.iter n incr 0 = wrap (Z.of_nat n).
Proof.
  induction n as [|n IH]; [reflexivity|].
  rewrite Nat.iter_succ, IH. unfold incr, add. rewrite wrap_add_l.
  apply (f_equal wrap). lia.
Qed.

Lemma map_get_foldl_bump l m p :
  map_get (foldl bump m l) p
  = Nat.iter (length (List.filter (fun q => bool_decide (q = p)) l)) incr (map_get m p).
Proof.
  revert m; induction l as [|q l IH]; intros m; [reflexivity|].
  cbn [foldl List.filter]. rewrite IH.
  destruct (bool_decide_reflect (q = p)) as [->|Hne].
  - rewrite map_get_bump_eq. cbn [length]. now rewrite Nat.iter_succ_r.
  - now rewrite map_get_bump_ne.
Qed.

Lemma lookup_foldl_bump l m p :
  foldl bump m l !! p = None <-> m !! p = None /\ p ∉ l.
Proof.
  revert m; induction l as [|q l IH]; intros m; cbn [foldl].
  - split; [intros Hn; split; [exact Hn|apply not_elem_of_nil]|tauto].
  - rewrite IH, not_elem_of_cons. destruct (decide (q = p)) as [->|Hne].
    + unfold bump. rewrite lookup_insert_eq. split; [intros [? _]|intros (_ & ? & _)];
        congruence.
    + rewrite bump_lookup_ne by assumption. intuition congruence.
Qed.

Lemma foldl_accumulate_uniq results (acc : int * int * gmap paper int) :
  (foldl accumulate acc results).2 = foldl bump acc.2 (extracted results).
Proof.
  revert acc; induction results as [|[ps [e|]] results IH];
    intros [[ec tc] u]; [reflexivity| |].
  - cbn [foldl]. rewrite IH. reflexivity.
  - cbn [foldl]. rewrite IH. unfold extracted. cbn [flat_map snd fst accumulate].
    now rewrite foldl_app.
Qed.

End CountFacts.

(** X1.  The count the aggregation keeps for a paper is the number of
    times the paper was extracted from the messages without error (as a
    Go [int]: exactly that number as long as it fits 63 bits). *)
Theorem aggregate_counts_mentions (results : list (list paper * option error))
    (p : paper) :
  map_get (aggregate results).2 p = wrap (Z.of_nat (mentions p results))
  /\ (Z.of_nat (mentions p results) < 2 ^ 63 ->
      map_get (aggregate results).2 p = Z.of_nat (mentions p results)).
Proof.
  assert (Heq : map_get (aggregate results).2 p = wrap (Z.of_nat (mentions p results))).
  { unfold aggregate, mentions. rewrite foldl_accumulate_uniq.
    cbn [snd]. rewrite map_get_foldl_bump, map_get_empty. apply iter_incr. }
  split; [exact Heq|]. intros Hfit. rewrite Heq. apply wrap_small. lia.
Qed.

(** X3.  The keys of the map of counts are the papers extracted from
    the messages without error, no more and no fewer. *)
Theorem aggregate_keys (results : list (list paper * option error)) (p : paper) :
  is_Some ((aggregate results).2 !! p) <-> p ∈ extracted results.
Proof.
  unfold aggregate. rewrite foldl_accumulate_uniq. cbn [snd].
  rewrite <- not_eq_None_Some, lookup_foldl_bump, lookup_empty.
  split.
  - intros Hn. destruct (decide (p ∈ extracted results)); [assumption|].
    exfalso. apply Hn. split; [reflexivity|assumption].
  - intros Hin [_ Hnot]. contradiction.
Qed.

Lemma aggregate_counts_mentions_witness :
  map_get (aggregate [([Double.paper_first_snippet], None);
                      ([Double.paper_first_snippet], Some (ParseError "s"))]).2
    Double.paper_first_snippet
  = wrap (Z.of_nat (mentions Double.paper_first_snippet
                      [([Double.paper_first_snippet], None);
                       ([Double.paper_first_snippet], Some (ParseError "s"))]))
  /\ (Z.of_nat (mentions Double.paper_first_snippet
                  [([Double.paper_first_snippet], None);
                   ([Double.paper_first_snippet], Some (ParseError "s"))]) < 2 ^ 63 ->
      map_get (aggregate [([Double.paper_first_snippet], None);
                          ([Double.paper_first_snippet], Some (ParseError "s"))]).2
        Double.paper_first_snippet
      = Z.of_nat (mentions Double.paper_first_snippet
                    [([Double.paper_first_snippet], None);
                     ([Double.paper_first_snippet], Some (ParseError "s"))])).
Proof. exact (aggregate_counts_mentions _ _). Defined.

Section TotalFacts.

Implicit Types (m : gmap paper int) (p : paper) (l : list paper).
Implicit Types (results : list (list paper * option error)).

Lemma foldl_accumulate_totals results (acc : int * int * gmap paper int) :
  (foldl accumulate acc results).1.1
  = Nat.iter (failures results) incr acc.1.1
  /\ wrap (foldl accumulate acc results).1.2
     = wrap (acc.1.2 + Z.of_nat (length (extracted results))).
Proof.
  revert acc; induction results as [|[ps [e|]] results IH];
    intros [[ec tc] u].
  - split; [reflexivity|]. cbn. apply (f_equal wrap). lia.
  - cbn [foldl accumulate]. destruct (IH (incr ec, tc, u)) as [IH1 IH2].
    split.
    + rewrite IH1. unfold failures. cbn [List.filter snd fst].
      rewrite bool_decide_eq_true_2 by eauto.
      cbn [length]. now rewrite Nat.iter_succ_r.
    + exact IH2.
  - cbn [foldl accumulate].
    destruct (IH (ec, add tc (Z.of_nat (length ps)), foldl bump u ps)) as [IH1 IH2].
    split.
    + rewrite IH1. unfold failures. cbn [List.filter snd fst].
      rewrite bool_decide_eq_false_2 by (intros [? ?]; discriminate).
      reflexivity.
    + rewrite IH2. unfold extracted. cbn [flat_map snd fst].
      rewrite length_app. cbn [snd fst]. unfold add. rewrite wrap_add_l.
      apply (f_equal wrap). lia.
Qed.

Lemma total_counts_empty : total_counts ∅ = 0.
Proof. unfold total_counts. apply map_fold_empty. Qed.

Lemma total_counts_insert_new m p (v : int) :
  m !! p = None -> total_counts (<[p := v]> m) = v + total_counts m.
Proof.
  intros Hn. unfold total_counts.
  rewrite map_fold_insert_L; [reflexivity| |exact Hn].
  intros; lia.
Qed.

Lemma total_counts_bump m p :
  wrap (total_counts (bump m p)) = wrap (total_counts m + 1).
Proof.
  unfold bump.
  assert (Hv : map_get m p = default 0 (m !! p)) by reflexivity.
  set (v := incr (map_get m p)) in *.
  destruct (m !! p) as [old|] eqn:Hp; simpl in Hv.
  - assert (Hm : total_counts m = old + total_counts (delete p m)).
    { rewrite <- (insert_delete_id m p old Hp) at 1.
      apply total_counts_insert_new, lookup_delete_eq. }
    assert (Hb : total_counts (<[p := v]> m) = v + total_counts (delete p m)).
    { rewrite <- insert_delete_eq.
      apply total_counts_insert_new, lookup_delete_eq. }
    rewrite Hb, Hm. subst v. rewrite Hv. unfold incr, add.
    rewrite wrap_add_l. apply (f_equal wrap). lia.
  - rewrite total_counts_insert_new by exact Hp. subst v. rewrite Hv.
    change (incr 0) with 1. apply (f_equal wrap). lia.
Qed.

Lemma total_counts_foldl_bump l m :
  wrap (total_counts (foldl bump m l)) = wrap (total_counts m + Z.of_nat (length l)).
Proof.
  revert m; induction l as [|p l IH]; intros m; cbn [foldl length].
  - apply (f_equal wrap). lia.
  - rewrite IH. rewrite <- wrap_add_l, total_counts_bump, wrap_add_l.
    apply (f_equal wrap). lia.
Qed.

Lemma wrap_idem (x : Z) : wrap (wrap x) = wrap x.
Proof.
  pose proof (wrap_add_l x 0) as Hw. now rewrite !Z.add_0_r in Hw.
Qed.

Lemma foldl_accumulate_wrapped results (acc : int * int * gmap paper int) :
  wrap acc.1.2 = acc.1.2 ->
  wrap (foldl accumulate acc results).1.2 = (foldl accumulate acc results).1.2.
Proof.
  revert acc; induction results as [|[ps [e|]] results IH]; intros [[ec tc] u] Hw.
  - exact Hw.
  - cbn [foldl accumulate]. apply IH. exact Hw.
  - cbn [foldl accumulate]. apply IH. cbn [fst snd]. apply wrap_idem.
Qed.

Lemma aggregate_titlesCount results :
  (aggregate results).1.2 = wrap (Z.of_nat (length (extracted results))).
Proof.
  unfold aggregate. rewrite <- foldl_accumulate_wrapped by reflexivity.
  destruct (foldl_accumulate_totals results (0, 0, ∅)) as [_ ->].
  reflexivity.
Qed.

End TotalFacts.

(** X2.  The error count is the number of results that carry an error
    and the count of titles is the number of papers in the others, both
    as Go [int]s. *)
Theorem aggregate_totals (results : list (list paper * option error)) :
  (aggregate results).1.1 = wrap (Z.of_nat (failures results))
  /\ (aggregate results).1.2 = wrap (Z.of_nat (length (extracted results))).
Proof.
  split; [|apply aggregate_titlesCount].
  unfold aggregate.
  destruct (foldl_accumulate_totals results (0, 0, ∅)) as [-> _].
  apply iter_incr.
Qed.

(** X4.  The counts of the map add up to the count of titles: every
    extracted paper is counted once, under its own key. *)
Theorem aggregate_counts_sum (results : list (list paper * option error)) :
  wrap (total_counts (aggregate results).2) = (aggregate results).1.2.
Proof.
  rewrite aggregate_titlesCount. unfold aggregate.
  rewrite foldl_accumulate_uniq. cbn [snd].
  rewrite total_counts_foldl_bump, total_counts_empty. reflexivity.
Qed.

(** ** Panics of the pipeline *)

Section PanicFacts.

Context `{Externals}.

Lemma messages_loop_panics (messages : list Message)
    (acc : int * int * gmap paper int) :
  panics (messages_loop messages acc)
  <-> Exists (fun m => panics (extractPapersFromMsg m)) messages.
Proof.
  revert acc; induction messages as [|m messages IH]; intros acc.
  - split; [intros [p Hp]; discriminate|intros He; inversion He].
  - cbn [messages_loop]. rewrite Exists_cons.
    destruct (extractPapersFromMsg m) as [r|p].
    + rewrite bind_Returned, IH. split; [now right|].
      intros [[q Hq]|He]; [discriminate|exact He].
    + rewrite bind_Panicked. split; [intros _; left|intros _]; eexists; reflexivity.
Qed.

End PanicFacts.

(** X5.  The aggregation over the messages panics exactly when the
    extraction of one of them does: a single message that trips a bounds
    check leaves the run without any counts. *)
Theorem extractPapersFromMsgs_panics_iff `{Externals} (messages : list Message) :
  panics (extractPapersFromMsgs messages)
  <-> Exists (fun m => panics (extractPapersFromMsg m)) messages.
Proof. unfold extractPapersFromMsgs. apply messages_loop_panics. Qed.

(** ** What an extraction returns *)

Section ReturnFacts.

Context `{Externals}.

Lemma extract_entry_split (urls abss : list Node) (i : int) (aTitle : Node)
    (p : paper) :
  extract_entry urls abss i aTitle = Returned (Some p) ->
  abstract_split (Abstract p).
Proof.
  unfold extract_entry. intros Hrun.
  destruct (index abss i) as [a|]; [|discriminate]. rewrite bind_Returned in Hrun.
  destruct (index urls i) as [u|]; [|discriminate]. rewrite bind_Returned in Hrun.
  destruct (normalize_url (htmlquery_InnerText u)) as [[decoded|bad]|];
    [| |discriminate]; rewrite bind_Returned in Hrun; [|discriminate].
  rewrite separateFirstLine_value in Hrun.
  set (abs := strings_TrimSpace (htmlquery_InnerText a)) in *.
  pose proof (string_take_drop 80 (remove_newlines abs)) as Hcat.
  pose proof (string_take_length 80 (remove_newlines abs)) as Hlen.
  set (first := strings.take 80 (remove_newlines abs)) in *.
  set (rest := strings.drop 80 (remove_newlines abs)) in *.
  rewrite !bind_Returned in Hrun. injection Hrun as <-.
  unfold abstract_split. cbn [Abstract Full FirstLine RestLines].
  split; [exact Hcat|]. unfold strings.len. lia.
Qed.

Lemma extract_loop_split (urls abss titles : list Node) :
  forall (i : int) (papers papers' : list paper),
    extract_loop urls abss i titles papers = Returned papers' ->
    Forall (fun p => abstract_split (Abstract p)) papers ->
    Forall (fun p => abstract_split (Abstract p)) papers'.
Proof.
  induction titles as [|t titles IH]; intros i papers papers' Hrun Hall.
  - injection Hrun as <-. exact Hall.
  - cbn [extract_loop] in Hrun.
    destruct (extract_entry urls abss i t) as [r|] eqn:Hentry; [|discriminate].
    rewrite bind_Returned in Hrun. apply (IH _ _ _ Hrun).
    destruct r as [p|]; [|exact Hall].
    apply Forall_app. split; [exact Hall|].
    constructor; [|constructor]. eapply extract_entry_split, Hentry.
Qed.

(** X6.  A result with an error carries no papers. *)
Theorem error_carries_no_papers (m : Message) (papers : list paper) (e : error) :
  extractPapersFromMsg m = Returned (papers, Some e) -> papers = [].
Proof.
  unfold extractPapersFromMsg. intros Hrun.
  destruct (gmailutils_MessageTextBody m) as [body|]; [|now injection Hrun as <- _].
  destruct (htmlquery_Parse body) as [doc|]; [|now injection Hrun as <- _].
  destruct (htmlquery_QueryAll doc xpTitle) as [titles|]; [|now injection Hrun as <- _].
  destruct (htmlquery_QueryAll doc xpURL) as [urls|]; [|now injection Hrun as <- _].
  destruct (negb _); [now injection Hrun as <- _|].
  destruct (htmlquery_QueryAll doc xpAbs) as [abss|]; [|now injection Hrun as <- _].
  destruct (extract_loop urls abss 0 titles []); discriminate.
Qed.

(** X7.  In every paper an extraction returns, the first line and the
    rest of the abstract are the abstract without its newlines, cut
    after 80 bytes. *)
Theorem extracted_abstracts_split (m : Message) (papers : list paper)
    (err : option error) :
  extractPapersFromMsg m = Returned (papers, err) ->
  Forall (fun p => abstract_split (Abstract p)) papers.
Proof.
  unfold extractPapersFromMsg. intros Hrun.
  destruct (gmailutils_MessageTextBody m) as [body|];
    [|injection Hrun as <- _; constructor].
  destruct (htmlquery_Parse body) as [doc|];
    [|injection Hrun as <- _; constructor].
  destruct (htmlquery_QueryAll doc xpTitle) as [titles|];
    [|injection Hrun as <- _; constructor].
  destruct (htmlquery_QueryAll doc xpURL) as [urls|];
    [|injection Hrun as <- _; constructor].
  destruct (negb _); [injection Hrun as <- _; constructor|].
  destruct (htmlquery_QueryAll doc xpAbs) as [abss|];
    [|injection Hrun as <- _; constructor].
  destruct (extract_loop urls abss 0 titles []) as [ps|] eqn:Hloop; [|discriminate].
  rewrite bind_Returned in Hrun. injection Hrun as <- _.
  eapply extract_loop_split; [exact Hloop|constructor].
Qed.

End ReturnFacts.

Lemma error_carries_no_papers_witness : ([] : list paper) = [].
Proof.
  apply (error_carries_no_papers (H := Double.externals) Double.msg_mismatch []
           (StructureMismatchError 2 1 "new citations")).
  reflexivity.
Defined.

Lemma extracted_abstracts_split_witness :
  Forall (fun p => abstract_split (Abstract p))
    [Double.paper_first_snippet; Double.paper_second_snippet].
Proof.
  apply (extracted_abstracts_split (H := Double.externals)
           Double.msg_two_snippets _ None).
  reflexivity.
Defined.

(** ** When an extraction returns *)

Section TotalityFacts.

Context `{Externals}.

Lemma extract_entry_returns_inv (before_u after_u abss : list Node)
    (u aTitle : Node) (r : option paper) :
  extract_entry (before_u ++ u :: after_u) abss (Z.of_nat (length before_u)) aTitle
  = Returned r ->
  (length before_u < length abss)%nat /\ has_ampersand u.
Proof.
  intros Hrun.
  destruct (Nat.lt_ge_cases (length before_u) (length abss)) as [Hlt|Hge].
  - split; [exact Hlt|].
    destruct (Z.le_gt_cases 0
                (strings.Index (strings.TrimPrefix (htmlquery_InnerText u) scholarURL) "&"))
      as [Hamp|Hno]; [exact Hamp|].
    destruct (extract_entry_no_ampersand before_u after_u abss u aTitle Hlt) as [p Hp].
    + unfold has_ampersand. lia.
    + congruence.
  - rewrite extract_entry_no_abstract in Hrun by exact Hge. discriminate.
Qed.

Lemma extract_loop_returns_inv (abss titles : list Node) :
  forall (before_u urls : list Node) (papers papers' : list paper),
    length titles = length urls ->
    extract_loop (before_u ++ urls) abss (Z.of_nat (length before_u)) titles papers
    = Returned papers' ->
    Forall has_ampersand urls
    /\ (urls <> [] -> (length (before_u ++ urls) <= length abss)%nat).
Proof.
  induction titles as [|t titles IH]; intros before_u urls papers papers' Hlen Hrun.
  - destruct urls; [|discriminate]. split; [constructor|congruence].
  - destruct urls as [|u urls]; [discriminate|].
    cbn [extract_loop] in Hrun.
    destruct (extract_entry (before_u ++ u :: urls) abss
                (Z.of_nat (length before_u)) t) as [r|] eqn:Hentry; [|discriminate].
    rewrite bind_Returned in Hrun.
    destruct (extract_entry_returns_inv _ _ _ _ _ _ Hentry) as [Hlt Hamp].
    replace (Z.of_nat (length before_u) + 1)
      with (Z.of_nat (length (before_u ++ [u]))) in Hrun
      by (rewrite length_app; cbn [length]; lia).
    rewrite (cons_middle u before_u urls), app_assoc in Hrun.
    destruct (IH (before_u ++ [u]) urls _ _ ltac:(simpl in Hlen; lia) Hrun)
      as [Hall Hbound].
    split; [constructor; assumption|]. intros _.
    destruct urls as [|u' urls].
    + rewrite length_app. cbn [length]. lia.
    + rewrite (cons_middle u before_u (u' :: urls)), app_assoc.
      apply Hbound. discriminate.
Qed.

(** X8.  For a message whose title and url queries give equally many
    nodes, the extraction returns exactly when there is an abstract node
    for every title and an '&' in every link, the prefix stripped
    (otherwise it panics); and what it returns is one paper for every
    title but those whose URL does not decode. *)
Theorem extract_returns_iff (m : Message) (body : Body) (doc : Node)
    (titles urls abss : list Node) :
  gmailutils_MessageTextBody m = inl body ->
  htmlquery_Parse body = inl doc ->
  htmlquery_QueryAll doc xpTitle = inl titles ->
  htmlquery_QueryAll doc xpURL = inl urls ->
  htmlquery_QueryAll doc xpAbs = inl abss ->
  length titles = length urls ->
  ((exists papers, extractPapersFromMsg m = Returned (papers, None))
   <-> (length titles <= length abss)%nat /\ Forall has_ampersand urls)
  /\ (forall papers err,
        extractPapersFromMsg m = Returned (papers, err) ->
        err = None /\ (length papers + skipped urls = length titles)%nat).
Proof.
  intros Hbody Hdoc Ht Hu Ha Hlen.
  assert (Hinv : forall papers err,
             extractPapersFromMsg m = Returned (papers, err) ->
             err = None
             /\ (length titles <= length abss)%nat /\ Forall has_ampersand urls).
  { intros papers err Hrun. unfold extractPapersFromMsg in Hrun.
    rewrite Hbody, Hdoc, Ht, Hu, Ha, Hlen, Z.eqb_refl in Hrun. cbn [negb] in Hrun.
    destruct (extract_loop urls abss 0 titles []) as [ps|] eqn:Hloop; [|discriminate].
    rewrite bind_Returned in Hrun. injection Hrun as _ <-.
    destruct (extract_loop_returns_inv abss titles [] urls [] ps Hlen Hloop)
      as [Hall Hbound].
    split; [reflexivity|]. split; [|exact Hall].
    destruct urls as [|u urls].
    - destruct titles; [simpl; lia|discriminate].
    - rewrite Hlen. apply Hbound. discriminate. }
  split; [split|].
  - intros [papers Hrun]. apply (Hinv _ _ Hrun).
  - intros [Habs Hamp].
    destruct (extract_guarded_length m body doc titles urls abss
                Hbody Hdoc Ht Hu Ha Hlen Habs Hamp) as (papers & Hrun & _).
    eauto.
  - intros papers err Hrun. destruct (Hinv _ _ Hrun) as (-> & Habs & Hamp).
    split; [reflexivity|].
    destruct (extract_guarded_length m body doc titles urls abss
                Hbody Hdoc Ht Hu Ha Hlen Habs Hamp) as (papers' & Hrun' & Hcount).
    rewrite Hrun in Hrun'. injection Hrun' as ->. exact Hcount.
Qed.

End TotalityFacts.

Lemma extract_returns_iff_witness :
  ((exists papers, extractPapersFromMsg Double.msg_two_snippets = Returned (papers, None))
   <-> (2 <= 2)%nat
       /\ Forall has_ampersand
            [Double.Text (Double.href_of "http://example.com/a");
             Double.Text (Double.href_of "http://example.com/a")])
  /\ (forall papers err,
        extractPapersFromMsg Double.msg_two_snippets = Returned (papers, err) ->
        err = None
        /\ (length papers
            + skipped [Double.Text (Double.href_of "http://example.com/a");
                       Double.Text (Double.href_of "http://example.com/a")]
            = 2)%nat).
Proof.
  apply (extract_returns_iff (H := Double.externals) Double.msg_two_snippets
           (Double.Document
              ["Paper A"; "Paper A"]
              [Double.href_of "http://example.com/a"; Double.href_of "http://example.com/a"]
              ["first snippet"; "second snippet"])
           (Double.Document
              ["Paper A"; "Paper A"]
              [Double.href_of "http://example.com/a"; Double.href_of "http://example.com/a"]
              ["first snippet"; "second snippet"])
           [Double.Text "Paper A"; Double.Text "Paper A"]
           [Double.Text (Double.href_of "http://example.com/a");
            Double.Text (Double.href_of "http://example.com/a")]
           [Double.Text "first snippet"; Double.Text "second snippet"]);
    reflexivity.
Defined.

(** ** More on the URL of an entry *)

Section MoreUrlFacts.

Lemma Index_amp_negative (s : string) :
  strings.Index s "&" < 0 <-> url.contains "&" s = false.
Proof.
  induction s as [|c s IH]; [cbn; split; [reflexivity|lia]|].
  cbn [strings.Index strings.HasPrefix url.contains].
  rewrite andb_true_r. destruct (Ascii.eqb c "&"); cbn [orb].
  - split; [lia|discriminate].
  - rewrite <- IH. destruct (Z.ltb_spec (strings.Index s "&") 0); lia.
Qed.

Lemma string_drop_length (n : nat) (s : string) :
  (String.length (strings.drop n s) <= String.length s)%nat.
Proof.
  revert s; induction n as [|n IH]; intros [|c s]; simpl; try lia.
  specialize (IH s). lia.
Qed.

Lemma TrimPrefix_length (s prefix : string) :
  (String.length (strings.TrimPrefix s prefix) <= String.length s)%nat.
Proof.
  unfold strings.TrimPrefix. destruct (strings.HasPrefix s prefix); [|lia].
  apply string_drop_length.
Qed.

Lemma decode_length_bounded (n : nat) :
  forall s : string,
    (String.length s <= n)%nat ->
    (String.length (url.decode s) <= String.length s)%nat.
Proof.
  induction n as [|n IH]; intros s Hn.
  - destruct s; [simpl; lia|simpl in Hn; lia].
  - destruct s as [|c s]; [simpl; lia|].
    cbn [url.decode]. destruct (Ascii.eqb c "%").
    + destruct s as [|a [|b rest]]; [simpl; lia|simpl; lia|].
      cbn [String.length] in *. specialize (IH rest). lia.
    + cbn [String.length] in Hn.
      destruct (Ascii.eqb c "+"); cbn [String.length]; specialize (IH s); lia.
Qed.

Lemma QueryUnescape_length (s decoded : string) :
  url.QueryUnescape s = inl decoded ->
  (String.length decoded <= String.length s)%nat.
Proof.
  unfold url.QueryUnescape. destruct (url.check_escapes s); [discriminate|].
  destruct (_ && _); intros [= <-]; [lia|].
  apply (decode_length_bounded (String.length s)). lia.
Qed.

End MoreUrlFacts.

(** X9.  The URL normalisation panics exactly on an href that, the
    scholar prefix stripped, holds no '&'; on every other href it
    returns, a URL or a decode error. *)
Theorem normalize_url_panics_iff (href : string) :
  panics (normalize_url href)
  <-> url.contains "&" (strings.TrimPrefix href scholarURL) = false.
Proof.
  unfold normalize_url. rewrite <- Index_amp_negative.
  set (longURL := strings.TrimPrefix href scholarURL).
  pose proof (Index_bounds longURL "&") as Hb.
  unfold strings.slice_to.
  destruct (Z.ltb_spec (strings.Index longURL "&") 0) as [Hneg|Hpos]; cbn [orb].
  - rewrite bind_Panicked. split; [intros _; exact Hneg|intros _; eexists; reflexivity].
  - destruct (Z.ltb_spec (strings.len longURL) (strings.Index longURL "&")); [lia|].
    rewrite bind_Returned. split; [intros [p Hp]; discriminate|lia].
Qed.

(** X10.  A URL the normalisation returns is never longer than the
    href it was taken from. *)
Theorem normalize_url_not_longer (href decoded : string) :
  normalize_url href = Returned (inl decoded) ->
  strings.len decoded <= strings.len href.
Proof.
  unfold normalize_url.
  set (longURL := strings.TrimPrefix href scholarURL).
  pose proof (TrimPrefix_length href scholarURL) as Htrim. fold longURL in Htrim.
  unfold strings.slice_to. destruct (_ || _); [discriminate|].
  rewrite bind_Returned. intros [= Hdec].
  apply QueryUnescape_length in Hdec.
  rewrite string_take_length in Hdec. unfold strings.len. lia.
Qed.

Lemma normalize_url_not_longer_witness :
  strings.len "http://example.com/x?y=1"
  <= strings.len (scholarURL +:+ "http%3A%2F%2Fexample.com%2Fx%3Fy%3D1&other=stuff").
Proof.
  apply (normalize_url_not_longer
           (scholarURL +:+ "http%3A%2F%2Fexample.com%2Fx%3Fy%3D1&other=stuff")
           "http://example.com/x?y=1").
  reflexivity.
Defined.

(** ** More on the first line *)

Section MoreFirstLineFacts.

Lemma remove_newlines_clean (s : string) :
  url.contains "010" (remove_newlines s) = false.
Proof.
  induction s as [|c s IH]; [reflexivity|].
  cbn [remove_newlines]. destruct (Ascii.eqb c "010") eqn:Hc; [exact IH|].
  cbn [url.contains]. now rewrite Hc, IH.
Qed.

Lemma remove_newlines_id (s : string) :
  url.contains "010" s = false -> remove_newlines s = s.
Proof.
  induction s as [|c s IH]; [reflexivity|].
  cbn [url.contains remove_newlines]. intros Hn.
  apply orb_false_elim in Hn as [Hc Hs]. now rewrite Hc, IH.
Qed.

Lemma take_clean (n : nat) (s : string) :
  url.contains "010" s = false -> url.contains "010" (strings.take n s) = false.
Proof.
  revert s; induction n as [|n IH]; intros [|c s]; try reflexivity.
  cbn [url.contains strings.take]. intros Hn.
  apply orb_false_elim in Hn as [Hc Hs]. now rewrite Hc, IH.
Qed.

Lemma drop_clean (n : nat) (s : string) :
  url.contains "010" s = false -> url.contains "010" (strings.drop n s) = false.
Proof.
  revert s; induction n as [|n IH]; intros [|c s]; try reflexivity; try tauto.
  cbn [url.contains strings.drop]. intros Hn.
  apply orb_false_elim in Hn as [Hc Hs]. now apply IH.
Qed.

Lemma separateFirstLine_inv (text first rest : string) :
  separateFirstLine text = Returned [first; rest] ->
  first = strings.take 80 (remove_newlines text)
  /\ rest = strings.drop 80 (remove_newlines text).
Proof.
  rewrite separateFirstLine_value.
  generalize (strings.take 80 (remove_newlines text))
             (strings.drop 80 (remove_newlines text)).
  intros a b [= -> ->]. auto.
Qed.

End MoreFirstLineFacts.

(** X11.  Neither of the two strings [separateFirstLine] returns holds
    a newline. *)
Theorem separateFirstLine_no_newline (text first rest : string) :
  separateFirstLine text = Returned [first; rest] ->
  url.contains "010" first = false /\ url.contains "010" rest = false.
Proof.
  intros Hrun. apply separateFirstLine_inv in Hrun as [-> ->].
  split; [apply take_clean|apply drop_clean]; apply remove_newlines_clean.
Qed.

(** X12.  The first line is stable: split again, it comes back whole,
    with nothing left over. *)
Theorem separateFirstLine_stable (text first rest : string) :
  separateFirstLine text = Returned [first; rest] ->
  separateFirstLine first = Returned [first; ""].
Proof.
  intros Hrun. apply separateFirstLine_inv in Hrun as [-> _].
  rewrite separateFirstLine_value.
  rewrite remove_newlines_id by apply take_clean, remove_newlines_clean.
  pose proof (string_take_length 80 (remove_newlines text)) as Hlen.
  rewrite string_take_all, string_drop_all by lia. reflexivity.
Qed.

Lemma separateFirstLine_no_newline_witness :
  url.contains "010" "two lines" = false /\ url.contains "010" "" = false.
Proof.
  apply (separateFirstLine_no_newline (String "t" (String "w" (String "o"
           (String " " (String "010" "lines")))))).
  reflexivity.
Defined.

Lemma separateFirstLine_stable_witness :
  separateFirstLine "a short abstract" = Returned ["a short abstract"; ""].
Proof.
  apply (separateFirstLine_stable "a short abstract" "a short abstract" "").
  reflexivity.
Defined.

(** ** More on the sorted keys *)

Section MoreSortFacts.

Lemma sortedKeys_sorted (m : gmap paper int) (order : list paper) :
  order ≡ₚ map_keys m ->
  exists keys : list paper,
    sortedKeys m order = Returned keys
    /\ keys ≡ₚ map_keys m
    /\ StronglySorted (before m) keys.
Proof.
  intros Hperm.
  assert (Hlen : length order = size m).
  { rewrite Hperm. unfold map_keys. now rewrite length_fmap, length_map_to_list. }
  unfold sortedKeys.
  assert (Hfill : fill_keys (replicate (size m) zero_paper) 0 order = Returned order).
  { apply (fill_keys_run order [] (replicate (size m) zero_paper)).
    now rewrite length_replicate. }
  rewrite Hfill, bind_Returned.
  destruct (Sort_sorted m order Hlen) as (s' & Hrun & Hp & Hs).
  rewrite Hrun, bind_Returned. exists s'. split; [reflexivity|]. split.
  - now rewrite Hp.
  - exact Hs.
Qed.

Lemma strongly_sorted_lookup {A} (R : relation A) (l : list A) :
  StronglySorted R l ->
  forall (i j : nat) (x y : A),
    (i < j)%nat -> l !! i = Some x -> l !! j = Some y -> R x y.
Proof.
  induction 1 as [|a l Hs IH Hall]; intros i j x y Hlt Hx Hy.
  - discriminate.
  - destruct j as [|j]; [lia|]. cbn in Hy. destruct i as [|i].
    + cbn in Hx. injection Hx as <-.
      rewrite Forall_forall in Hall. apply Hall.
      apply list_elem_of_lookup. eauto.
    + cbn in Hx. apply (IH i j); [lia|assumption|assumption].
Qed.

Lemma map_keys_elem (m : gmap paper int) (p : paper) :
  p ∈ map_keys m <-> is_Some (m !! p).
Proof.
  unfold map_keys. rewrite list_elem_of_fmap. split.
  - intros ([q v] & -> & Hin). apply elem_of_map_to_list in Hin. eauto.
  - intros [v Hv]. exists (p, v). split; [reflexivity|].
    now apply elem_of_map_to_list.
Qed.

End MoreSortFacts.

(** X13.  In the listing [sortedKeys] returns, a key listed earlier
    never has a smaller count than a key listed later; the first key
    has the largest count of all. *)
Theorem sortedKeys_monotone (m : gmap paper int) (order : list paper) :
  order ≡ₚ map_keys m ->
  exists keys : list paper,
    sortedKeys m order = Returned keys
    /\ forall (i j : nat) (x y : paper),
         (i <= j)%nat -> keys !! i = Some x -> keys !! j = Some y ->
         map_get m y <= map_get m x.
Proof.
  intros Hperm.
  destruct (sortedKeys_sorted m order Hperm) as (keys & Hrun & _ & Hs).
  exists keys. split; [exact Hrun|].
  intros i j x y Hle Hx Hy.
  destruct (decide (i = j)) as [->|Hne].
  - rewrite Hx in Hy. injection Hy as <-. lia.
  - apply (strongly_sorted_lookup (before m) keys Hs i j x y); [lia|assumption|assumption].
Qed.

(** X14.  [sortedKeys] lists every key of the map exactly once and
    nothing else. *)
Theorem sortedKeys_each_key_once (m : gmap paper int) (order : list paper) :
  order ≡ₚ map_keys m ->
  exists keys : list paper,
    sortedKeys m order = Returned keys
    /\ NoDup keys
    /\ length keys = size m
    /\ forall p : paper, p ∈ keys <-> is_Some (m !! p).
Proof.
  intros Hperm.
  destruct (sortedKeys_sorted m order Hperm) as (keys & Hrun & Hp & _).
  exists keys. split; [exact Hrun|]. split; [|split].
  - rewrite Hp. apply NoDup_fst_map_to_list.
  - rewrite Hp. unfold map_keys. now rewrite length_fmap, length_map_to_list.
  - intros p. rewrite Hp. apply map_keys_elem.
Qed.

Lemma counts_keys :
  [Double.paper_first_snippet; Double.paper_second_snippet]
  ≡ₚ map_keys Double.counts.
Proof.
  unfold map_keys, Double.counts.
  rewrite map_to_list_insert, map_to_list_singleton.
  - reflexivity.
  - apply lookup_singleton_ne. discriminate.
Qed.

Lemma sortedKeys_monotone_witness :
  exists keys : list paper,
    sortedKeys Double.counts
      [Double.paper_first_snippet; Double.paper_second_snippet]
    = Returned keys
    /\ forall (i j : nat) (x y : paper),
         (i <= j)%nat -> keys !! i = Some x -> keys !! j = Some y ->
         map_get Double.counts y <= map_get Double.counts x.
Proof. apply sortedKeys_monotone. apply counts_keys. Defined.

Lemma sortedKeys_each_key_once_witness :
  exists keys : list paper,
    sortedKeys Double.counts
      [Double.paper_first_snippet; Double.paper_second_snippet]
    = Returned keys
    /\ NoDup keys
    /\ length keys = size Double.counts
    /\ forall p : paper, p ∈ keys <-> is_Some (Double.counts !! p).
Proof. apply sortedKeys_each_key_once. apply counts_keys. Defined.

(** ** [Less] and [Swap] of the sorted map *)

Section InterfaceFacts.

Implicit Types (sm : sortedMap) (i j : int).

Lemma index_in_bounds {A} (xs : list A) (i : int) :
  0 <= i < Z.of_nat (length xs) ->
  exists x, xs !! Z.to_nat i = Some x /\ index xs i = Returned x.
Proof.
  intros Hr. destruct (index_in_range xs (Z.to_nat i) ltac:(lia)) as [x Hx].
  rewrite Z2Nat.id in Hx by lia. exists x. split; [|exact Hx].
  unfold index in Hx.
  destruct (_ || _); [discriminate|].
  destruct (xs !! Z.to_nat i); [congruence|discriminate].
Qed.

Lemma store_in_bounds {A} (xs : list A) (i : int) (v : A) :
  0 <= i < Z.of_nat (length xs) ->
  store xs i v = Returned (<[Z.to_nat i := v]> xs).
Proof.
  intros Hr. unfold store.
  destruct (Z.ltb_spec i 0); [lia|].
  destruct (Z.leb_spec (Z.of_nat (length xs)) i); [lia|]. reflexivity.
Qed.

End InterfaceFacts.

Section LessSwapFacts.

Implicit Types (sm : sortedMap) (i j k : int).

Lemma index_returns_inv {A} (xs : list A) (i : int) (x : A) :
  index xs i = Returned x ->
  0 <= i < Z.of_nat (length xs) /\ xs !! Z.to_nat i = Some x.
Proof.
  unfold index.
  destruct (Z.ltb_spec i 0); [discriminate|].
  destruct (Z.leb_spec (Z.of_nat (length xs)) i); [discriminate|]. cbn [orb].
  destruct (xs !! Z.to_nat i); [|discriminate]. intros [= ->]. split; [lia|reflexivity].
Qed.

Lemma Less_returns_inv sm i j (b : bool) :
  sortedMap_Less sm i j = Returned b ->
  exists x y : paper,
    in_range sm i /\ in_range sm j
    /\ sm_s sm !! Z.to_nat i = Some x /\ sm_s sm !! Z.to_nat j = Some y
    /\ b = (map_get (sm_m sm) x >? map_get (sm_m sm) y).
Proof.
  unfold sortedMap_Less. intros Hrun.
  destruct (index (sm_s sm) i) as [x|] eqn:Hx; [|discriminate].
  rewrite bind_Returned in Hrun.
  destruct (index (sm_s sm) j) as [y|] eqn:Hy; [|discriminate].
  rewrite bind_Returned in Hrun. injection Hrun as <-.
  apply index_returns_inv in Hx as [Hi Hx], Hy as [Hj Hy].
  exists x, y. unfold in_range. auto.
Qed.

Lemma Less_in_range sm i j (x y : paper) :
  in_range sm i -> in_range sm j ->
  sm_s sm !! Z.to_nat i = Some x -> sm_s sm !! Z.to_nat j = Some y ->
  sortedMap_Less sm i j = Returned (map_get (sm_m sm) x >? map_get (sm_m sm) y).
Proof.
  intros Hi Hj Hx Hy. unfold sortedMap_Less.
  destruct (index_in_bounds (sm_s sm) i Hi) as (x' & Hx' & ->).
  destruct (index_in_bounds (sm_s sm) j Hj) as (y' & Hy' & ->).
  rewrite !bind_Returned.
  assert (x' = x) as -> by congruence. assert (y' = y) as -> by congruence.
  reflexivity.
Qed.

End LessSwapFacts.

(** X15.  [Less] of the sorted map is a strict order on the indices of
    its slice, as [sort.Sort] asks of it: never both ways between two
    indices, and transitive. *)
Theorem sortedMap_Less_strict (sm : sortedMap) :
  (forall i j : int,
      sortedMap_Less sm i j = Returned true ->
      sortedMap_Less sm j i = Returned false)
  /\ (forall i j k : int,
        sortedMap_Less sm i j = Returned true ->
        sortedMap_Less sm j k = Returned true ->
        sortedMap_Less sm i k = Returned true).
Proof.
  split.
  - intros i j Hij.
    apply Less_returns_inv in Hij as (x & y & Hi & Hj & Hx & Hy & Hb).
    rewrite (Less_in_range sm j i y x Hj Hi Hy Hx). f_equal.
    symmetry in Hb. apply Z.gtb_lt in Hb.
    destruct (Z.gtb_spec (map_get (sm_m sm) y) (map_get (sm_m sm) x)); [lia|reflexivity].
  - intros i j k Hij Hjk.
    apply Less_returns_inv in Hij as (x & y & Hi & Hj & Hx & Hy & Hb).
    apply Less_returns_inv in Hjk as (y' & z & _ & Hk & Hy' & Hz & Hb').
    assert (y' = y) as -> by congruence.
    rewrite (Less_in_range sm i k x z Hi Hk Hx Hz). f_equal.
    symmetry in Hb, Hb'. apply Z.gtb_lt in Hb, Hb'.
    destruct (Z.gtb_spec (map_get (sm_m sm) x) (map_get (sm_m sm) z)); [reflexivity|lia].
Qed.

(** X16.  [Swap] on two indices of the slice exchanges the two entries
    and touches nothing else, neither another entry nor the map; done
    twice, it gives back the sorted map it started from.  On an index
    outside the slice it panics. *)
Theorem sortedMap_Swap_exchanges (sm : sortedMap) (i j : int) :
  (in_range sm i /\ in_range sm j ->
   exists sm' : sortedMap,
     sortedMap_Swap sm i j = Returned sm'
     /\ sm_m sm' = sm_m sm
     /\ length (sm_s sm') = length (sm_s sm)
     /\ sm_s sm' !! Z.to_nat i = sm_s sm !! Z.to_nat j
     /\ sm_s sm' !! Z.to_nat j = sm_s sm !! Z.to_nat i
     /\ (forall n : nat, n <> Z.to_nat i -> n <> Z.to_nat j ->
         sm_s sm' !! n = sm_s sm !! n)
     /\ sortedMap_Swap sm' i j = Returned sm)
  /\ (~ (in_range sm i /\ in_range sm j) -> panics (sortedMap_Swap sm i j)).
Proof.
  destruct sm as [m s]. unfold in_range. cbn [sm_s sm_m]. split.
  - intros [Hi Hj].
    destruct (index_in_bounds s i Hi) as (x & Hx & Hix).
    destruct (index_in_bounds s j Hj) as (y & Hy & Hiy).
    set (ni := Z.to_nat i) in *. set (nj := Z.to_nat j) in *.
    assert (Hni : (ni < length s)%nat) by (apply lookup_lt_Some in Hx; exact Hx).
    assert (Hnj : (nj < length s)%nat) by (apply lookup_lt_Some in Hy; exact Hy).
    set (s' := <[nj := x]> (<[ni := y]> s)).
    assert (Hlen' : length s' = length s) by (unfold s'; now rewrite !length_insert).
    assert (Hswap : sortedMap_Swap (mk_sortedMap m s) i j
                    = Returned (mk_sortedMap m s')).
    { unfold sortedMap_Swap. cbn [sm_s sm_m]. rewrite Hix, Hiy, !bind_Returned.
      rewrite (store_in_bounds s i y Hi), bind_Returned.
      rewrite store_in_bounds by (rewrite length_insert; exact Hj).
      reflexivity. }
    assert (Hi' : s' !! ni = Some y).
    { unfold s'. destruct (decide (nj = ni)) as [Heq|Hne].
      - rewrite Heq, list_lookup_insert_eq by (now rewrite length_insert).
        congruence.
      - rewrite list_lookup_insert_ne by exact Hne.
        now rewrite list_lookup_insert_eq. }
    assert (Hj' : s' !! nj = Some x).
    { unfold s'. now rewrite list_lookup_insert_eq by (now rewrite length_insert). }
    assert (Hother : forall n : nat, n <> ni -> n <> nj -> s' !! n = s !! n).
    { intros n H1 H2. unfold s'.
      now rewrite !list_lookup_insert_ne by congruence. }
    exists (mk_sortedMap m s'). cbn [sm_s sm_m].
    split; [exact Hswap|]. split; [reflexivity|]. split; [exact Hlen'|].
    split; [congruence|]. split; [congruence|]. split; [exact Hother|].
    unfold sortedMap_Swap. cbn [sm_s sm_m].
    destruct (index_in_bounds s' i ltac:(lia)) as (x' & Hx' & ->).
    destruct (index_in_bounds s' j ltac:(lia)) as (y' & Hy' & ->).
    fold ni in Hx'. fold nj in Hy'.
    assert (x' = y) as -> by congruence. assert (y' = x) as -> by congruence.
    rewrite !bind_Returned.
    rewrite (store_in_bounds s' i x ltac:(lia)), bind_Returned.
    rewrite store_in_bounds by (rewrite length_insert; lia).
    fold ni nj.
    apply (f_equal (fun l => Returned (mk_sortedMap m l))).
    apply list_eq. intros n.
    destruct (decide (n = nj)) as [->|Hnj'].
    + rewrite list_lookup_insert_eq by (rewrite length_insert; lia). congruence.
    + rewrite list_lookup_insert_ne by congruence.
      destruct (decide (n = ni)) as [->|Hni'].
      * rewrite list_lookup_insert_eq by lia. congruence.
      * rewrite list_lookup_insert_ne by congruence. now apply Hother.
  - intros Hout. unfold sortedMap_Swap. cbn [sm_s sm_m].
    destruct (index s i) as [x|p] eqn:Hx; [|eexists; reflexivity].
    destruct (index s j) as [y|p] eqn:Hy; [|eexists; reflexivity].
    apply index_returns_inv in Hx as [Hi _], Hy as [Hj _]. tauto.
Qed.

Lemma sortedMap_Swap_exchanges_witness :
  exists sm' : sortedMap,
    sortedMap_Swap
      (mk_sortedMap ∅ [Double.paper_first_snippet; Double.paper_second_snippet]) 0 1
    = Returned sm'
    /\ sortedMap_Swap sm' 0 1
       = Returned (mk_sortedMap ∅
                     [Double.paper_first_snippet; Double.paper_second_snippet]).
Proof.
  destruct (proj1 (sortedMap_Swap_exchanges
                     (mk_sortedMap ∅
                        [Double.paper_first_snippet; Double.paper_second_snippet])
                     0 1))
    as (sm' & Hswap & _ & _ & _ & _ & _ & Hback).
  - unfold in_range. simpl. lia.
  - exists sm'. split; assumption.
Defined.

(** ** The run *)

Section RunFacts.

Context `{Services}.

Lemma collect_ids (messages : list Message) (ids : list string) :
  foldl (fun ids msg => ids ++ [message_Id msg]) ids messages
  = ids ++ (message_Id <$> messages).
Proof.
  revert ids; induction messages as [|m messages IH]; intros ids; cbn [foldl fmap].
  - now rewrite app_nil_r.
  - rewrite IH, <- app_assoc. reflexivity.
Qed.


(** X17.  [markGmailMsgsUnread] issues one batch request, whatever the
    number of messages (none included): it names the id of every
    message once, in order, removes the label UNREAD and adds none; a
    failure of the request is logged and nothing more. *)
Theorem markGmailMsgsUnread_request (usr : string) (messages : list Message) :
  exists rest : list event,
    markGmailMsgsUnread usr messages
    = BatchModify usr (mk_request [] (message_Id <$> messages) ["UNREAD"]) :: rest
    /\ (rest = []
        \/ exists err,
             rest = [Log (BatchModifyFailed "UNREAD"
                            (Z.of_nat (length messages)) err)]).
Proof.
  unfold markGmailMsgsUnread. rewrite collect_ids. cbn [app].
  destruct (messages_BatchModify usr _) as [err|]; eexists; split; eauto.
Qed.

(** The events of a run that gets as far as the report. *)
Lemma main_events (f : flags) (env : environ) (events : list event) (code : int) :
  main f env = Returned (events, code) ->
  (exists err, events = [Log (ClientFailed err)] /\ code = 1)
  \/ (events = [PrintAllLabels user] /\ code = 0 /\ flag_labels f = true)
  \/ (exists tmplText err, code = 1
        /\ (events = [Log (TemplateFailed tmplText err)]
            \/ exists text, events = [Stdout text; Log (TemplateFailed tmplText err)]))
  \/ (exists text logged,
        code = 0 /\ flag_labels f = false
        /\ gmail_New (flag_mark f) = None
        /\ events
           = [Stdout text]
             ++ (if flag_mark f
                 then markGmailMsgsUnread user (main_fetch env (flag_l f)).2
                 else [])
             ++ logged
        /\ (logged = [] \/ exists n, logged = [Log (ErrorsLogged n)])).
Proof.
  unfold main. intros Hrun.
  destruct (gmail_New (flag_mark f)) as [err|] eqn:Hclient.
  { injection Hrun as <- <-. left. eauto. }
  destruct (flag_labels f) eqn:Hlabels.
  { injection Hrun as <- <-. right. left. auto. }
  destruct (extractPapersFromMsgs (main_fetch env (flag_l f)).2)
    as [[[errCount titlesCount] uniqTitles]|]; [|discriminate].
  rewrite bind_Returned in Hrun.
  right. right.
  assert (Hlog : forall l : list event,
             l = (if negb (errCount =? 0) then [Log (ErrorsLogged errCount)] else []) ->
             l = [] \/ exists n, l = [Log (ErrorsLogged n)]).
  { intros l ->. destruct (negb _); eauto. }
  destruct (flag_html f).
  - unfold generateAndPrintHTML in Hrun.
    destruct (generateMdReport mdTemplText _ titlesCount uniqTitles) as [text [e|]].
    + injection Hrun as <- <-. left. eauto 10.
    + injection Hrun as <- <-. right. eexists _, _. eauto 10.
  - unfold generateAndPrintMarkdown in Hrun.
    destruct (generateMdReport mdTemplText _ titlesCount uniqTitles) as [text [e|]].
    + injection Hrun as <- <-. left. eauto 10.
    + injection Hrun as <- <-. right. eexists _, _. eauto 10.
Qed.


End RunFacts.

Section MoreRunFacts.

Context `{Services}.

Ltac absent H :=
  repeat (apply elem_of_cons in H as [H|H]; [discriminate H|]);
  apply elem_of_nil in H; contradiction.

(** X19.  A run asks Gmail to change labels only when [-mark] is
    given, only after the report has gone to standard output, and only
    if it then ends with status 0. *)
Theorem mark_only_after_report (f : flags) (env : environ)
    (events : list event) (code : int) (usr : string)
    (req : BatchModifyMessagesRequest) :
  main f env = Returned (events, code) ->
  BatchModify usr req ∈ events ->
  flag_mark f = true /\ code = 0
  /\ exists text rest, events = Stdout text :: rest /\ BatchModify usr req ∈ rest.
Proof.
  intros Hrun Hin.
  destruct (main_events f env events code Hrun)
    as [(err & -> & _)|[(-> & _ & _)|[(t & e & _ & [->|[text ->]])|Hdone]]];
    try absent Hin.
  destruct Hdone as (text & logged & -> & _ & _ & -> & Hlogged).
  cbn [app] in Hin. apply elem_of_cons in Hin as [Hin|Hin]; [discriminate|].
  destruct (flag_mark f).
  - split; [reflexivity|]. split; [reflexivity|]. eauto.
  - exfalso. cbn [app] in Hin.
    destruct Hlogged as [->|[n ->]]; absent Hin.
Qed.


(** X21.  With a working client and no [-labels], the run panics
    exactly when the extraction of one of the fetched messages does:
    one message that trips a bounds check ends the run before anything
    is printed or marked. *)
Theorem main_panics_iff (f : flags) (env : environ) :
  gmail_New (flag_mark f) = None ->
  flag_labels f = false ->
  panics (main f env)
  <-> Exists (fun m => panics (extractPapersFromMsg m)) (main_fetch env (flag_l f)).2.
Proof.
  intros Hclient Hlabels. unfold main. rewrite Hclient, Hlabels.
  rewrite <- (messages_loop_panics _ (0, 0, ∅)).
  fold (extractPapersFromMsgs (main_fetch env (flag_l f)).2).
  destruct (extractPapersFromMsgs (main_fetch env (flag_l f)).2)
    as [[[errCount titlesCount] uniqTitles]|p].
  - rewrite bind_Returned.
    split; [|intros [q Hq]; discriminate].
    intros [q Hq]. exfalso.
    destruct (if flag_html f then _ else _) as [printed fatal].
    destruct fatal; discriminate.
  - rewrite bind_Panicked. split; intros _; eexists; reflexivity.
Qed.

End MoreRunFacts.

(** ** The run on the stand-in *)

Lemma run_on_stand_in :
  main (H0 := DoubleRun.services) DoubleRun.mark_flags ∅
  = Returned
      ([Stdout "# Google Scholar Alert Digest";
        BatchModify user (mk_request [] ["m2"; "m6"] ["UNREAD"]);
        Log (ErrorsLogged 1)], 0).
Proof. lazy. reflexivity. Qed.


Lemma mark_only_after_report_witness :
  flag_mark DoubleRun.mark_flags = true /\ 0 = 0
  /\ exists text rest,
       [Stdout "# Google Scholar Alert Digest";
        BatchModify user (mk_request [] ["m2"; "m6"] ["UNREAD"]);
        Log (ErrorsLogged 1)]
       = Stdout text :: rest
       /\ BatchModify user (mk_request [] ["m2"; "m6"] ["UNREAD"]) ∈ rest.
Proof.
  apply (mark_only_after_report (H0 := DoubleRun.services)
           DoubleRun.mark_flags ∅ _ 0 user
           (mk_request [] ["m2"; "m6"] ["UNREAD"]));
    [exact run_on_stand_in | apply list_elem_of_further, list_elem_of_here].
Defined.


Lemma main_panics_iff_witness :
  panics (main (H0 := DoubleRun.services) DoubleRun.mark_flags ∅)
  <-> Exists (fun m => panics (extractPapersFromMsg (H := DoubleRun.externals) m))
        [Double.msg_mismatch; Double.msg_plain].
Proof.
  apply (main_panics_iff (H0 := DoubleRun.services) DoubleRun.mark_flags ∅);
    reflexivity.
Defined.
